(** * Telemetry transport and PECAN viewer: a shallow embedding

    This development embeds the parts of the telemetry pipeline that carry
    the transport and fan-out guarantees:

    - [Telemetry]: the car/base node of
      [universal-telemetry-software/src/data.py] (the UDP sender and its
      ring buffer, the TCP resend server, the UDP receiver with its gap
      tracker, and the missing-packet reporter);
    - [Pecan]: the viewer back end of [pecan/Backend/app.py] and
      [pecan/app.py] (the CAN decoder, the bounded message history, the
      Dash table query, the manual import route and the SSE broker).

    Clock readings are integers (milliseconds for the car node,
    microseconds for the viewer's datetimes).  IEEE doubles are carried as
    their 8-byte big-endian encoding, which is what [struct.pack("!d")]
    produces.  [PyNum] gives CPython's arithmetic on them: [int(t * 1000)]
    ([py_int_times_1000], failing on NaN, infinities and overflow) and
    [repr] ([py_float_repr], the text [json.dumps] writes).  The theorems
    about the car node take these two operations as parameters
    [to_millis] and [float_repr]; the concrete inputs use CPython's. *)

From Stdlib Require Import ZArith Lia Ascii Sorting.Sorted.
From Stdlib Require Import Strings.Byte.
From stdpp Require Import base list gmap strings sorting.

Open Scope Z_scope.
Set Warnings "-register-all".


(* ===================================================================== *)
(** * CPython's integer and float primitives *)
(* ===================================================================== *)

Module PyNum.

Definition digit_char (n : Z) : ascii := ascii_of_nat (48 + Z.to_nat n).

Fixpoint decimal_digits (fuel : nat) (n : Z) (acc : string) : string :=
  match fuel with
  | O => acc
  | S f =>
      let acc' := String.String (digit_char (n mod 10)) acc in
      if n <? 10 then acc' else decimal_digits f (n / 10) acc'
  end.

(** [str(z)] for an int. *)
Definition z_to_string (z : Z) : string :=
  let body := decimal_digits (S (Z.to_nat (Z.log2 (Z.abs z)))) (Z.abs z) "" in
  if z <? 0 then String.String "-" body else body.

(** [n / d] rounded to the nearest integer, ties to even ([d > 0]). *)
Definition rne_div (n d : Z) : Z :=
  let q := n / d in
  let r := n - q * d in
  if 2 * r <? d then q
  else if d <? 2 * r then q + 1
  else if Z.even q then q else q + 1.

(** The double nearest to [num / den] ([den > 0]), ties to even, as a pair
    [(m, q)] of value [m * 2 ^ q]; [None] is the [OverflowError] of a result
    beyond the largest finite double.  Both the float product [x * y] of
    two doubles and the true division of two ints are this rounding of the
    exact result. *)
Definition round_double (num den : Z) : option (Z * Z) :=
  if num =? 0 then Some (0, 0) else
  let a := Z.abs num in
  let l0 := Z.log2 a - Z.log2 den in
  let l := if (if 0 <=? l0 then den * 2 ^ l0 <=? a else den <=? a * 2 ^ (- l0))
           then l0 else l0 - 1 in
  let q := Z.max (l - 52) (-1074) in
  let m := if 0 <=? q then rne_div a (den * 2 ^ q) else rne_div (a * 2 ^ (- q)) den in
  if 1024 <=? Z.log2 m + q then None
  else Some (if num <? 0 then - m else m, q).

(** [int(x)] of a finite double [m * 2 ^ q]: truncation towards zero. *)
Definition dy_trunc (x : Z * Z) : Z :=
  let '(m, q) := x in
  if 0 <=? q then m * 2 ^ q else Z.quot m (2 ^ (- q)).

(** An IEEE-754 double, as its 8-byte big-endian encoding. *)
Definition double := list byte.

(** Unsigned big-endian integer of a byte string ([struct.unpack("!Q")],
    ["!H"] and ["!I"]). *)
Definition be (bs : list byte) : Z :=
  fold_left (fun acc b => acc * 256 + Z.of_nat (Byte.to_nat b)) bs 0.

(** The value of a double: [Finite neg m e] is [(-1)^neg * m * 2 ^ e]. *)
Inductive f64 := Finite (neg : bool) (m e : Z) | Infinite (neg : bool) | NaN.

Definition f64_of (d : double) : f64 :=
  let bits := be d in
  let neg := Z.testbit bits 63 in
  let ex := Z.land (Z.shiftr bits 52) 2047 in
  let fr := Z.land bits (2 ^ 52 - 1) in
  if ex =? 2047 then (if fr =? 0 then Infinite neg else NaN)
  else if ex =? 0 then Finite neg fr (-1074)
  else Finite neg (fr + 2 ^ 52) (ex - 1075).

(** [int(t * 1000)]: the float product, then truncation; [None] is the
    [ValueError] (NaN) or [OverflowError] (an infinity, or a product beyond
    the largest double). *)
Definition py_int_times_1000 (d : double) : option Z :=
  match f64_of d with
  | Finite neg m e =>
      match round_double ((if neg then - m else m) * 1000 * 2 ^ Z.max e 0) (2 ^ Z.max (- e) 0) with
      | Some x => Some (dy_trunc x)
      | None => None
      end
  | _ => None
  end.

(** Comparison of [a * 2 ^ e] with [d * 10 ^ p]. *)
Definition cmp_dy_dec (a e d p : Z) : comparison :=
  Z.compare (a * 2 ^ Z.max e 0 * 10 ^ Z.max (- p) 0) (d * 10 ^ Z.max p 0 * 2 ^ Z.max (- e) 0).

(** Whether [d * 10 ^ p] reads back as the positive double [m * 2 ^ e]
    under round-half-even: it lies strictly inside the rounding interval,
    or on its boundary when [m] is even.  The interval is narrower below a
    power of two. *)
Definition accepts (m e d p : Z) : bool :=
  let lo := if (m =? 2 ^ 52) && (-1074 <? e) then 4 * m - 1 else 4 * m - 2 in
  let hi := 4 * m + 2 in
  match cmp_dy_dec lo (e - 2) d p, cmp_dy_dec hi (e - 2) d p with
  | Lt, Gt => true
  | Eq, Gt | Lt, Eq => Z.even m
  | _, _ => false
  end.

(** [floor(log10(m * 2 ^ e))], corrected from an estimate [k]. *)
Fixpoint log10_fix (fuel : nat) (m e k : Z) : Z :=
  match fuel with
  | O => k
  | S f =>
      match cmp_dy_dec m e 1 (k + 1) with
      | Lt => match cmp_dy_dec m e 1 k with
              | Lt => log10_fix f m e (k - 1)
              | _ => k
              end
      | _ => log10_fix f m e (k + 1)
      end
  end.

(** The [n]-significant-digit decimal that reads back as [m * 2 ^ e]
    (whose leading digit has weight [10 ^ e10]), the nearer of the two
    neighbours when both do; [None] when neither does. *)
Definition candidate (m e e10 n : Z) : option Z :=
  let p := e10 - n + 1 in
  let lo := (m * 2 ^ Z.max e 0 * 10 ^ Z.max (- p) 0) / (10 ^ Z.max p 0 * 2 ^ Z.max (- e) 0) in
  match accepts m e lo p, accepts m e (lo + 1) p with
  | true, true =>
      match cmp_dy_dec (2 * m) e (2 * lo + 1) p with
      | Lt => Some lo
      | Gt => Some (lo + 1)
      | Eq => if Z.even lo then Some lo else Some (lo + 1)
      end
  | true, false => Some lo
  | false, true => Some (lo + 1)
  | false, false => None
  end.

(** The shortest round-tripping decimal [(digits, exponent)]. *)
Fixpoint shortest (fuel : nat) (m e e10 n : Z) : Z * Z :=
  match fuel with
  | O => (m, e10 - n + 1)
  | S f =>
      match candidate m e e10 n with
      | Some d => (d, e10 - n + 1)
      | None => shortest f m e e10 (n + 1)
      end
  end.

Fixpoint strip_zeros (fuel : nat) (d p : Z) : Z * Z :=
  match fuel with
  | O => (d, p)
  | S f => if (d mod 10 =? 0) && (0 <? d) then strip_zeros f (d / 10) (p + 1) else (d, p)
  end.

Definition digits_of (n : Z) : list ascii := String.list_ascii_of_string (z_to_string n).

(** The layout of [float_repr_style = 'short']: exponent notation when
    the decimal point position [decpt] is below [-3] or above [16]. *)
Definition format_repr (ds : list ascii) (decpt : Z) : list ascii :=
  let nd := Z.of_nat (length ds) in
  if (decpt <=? -4) || (16 <? decpt) then
    let x := decpt - 1 in
    let xs := digits_of (Z.abs x) in
    match ds with [] => [] | [d0] => [d0] | d0 :: r => d0 :: "."%char :: r end ++
    "e"%char :: (if x <? 0 then "-"%char else "+"%char) ::
    (if (Z.abs x <? 10) then "0"%char :: xs else xs)
  else if decpt <=? 0 then "0"%char :: "."%char :: repeat "0"%char (Z.to_nat (- decpt)) ++ ds
  else if decpt <? nd then firstn (Z.to_nat decpt) ds ++ "."%char :: skipn (Z.to_nat decpt) ds
  else ds ++ repeat "0"%char (Z.to_nat (decpt - nd)) ++ ["."%char; "0"%char].

Definition repr_pos (m e : Z) : list ascii :=
  let e10 := log10_fix 4 m e (((Z.log2 m + e) * 30103) / 100000) in
  let '(d, p) := shortest 17 m e e10 1 in
  let '(d, p) := strip_zeros 17 d p in
  let ds := digits_of d in
  format_repr ds (Z.of_nat (length ds) + p).

(** The text [json.dumps] writes for a float: [float.__repr__], or
    [NaN], [Infinity], [-Infinity]. *)
Definition py_float_repr (d : double) : list ascii :=
  match f64_of d with
  | NaN => String.list_ascii_of_string "NaN"
  | Infinite neg => String.list_ascii_of_string (if neg then "-Infinity" else "Infinity")
  | Finite neg m e =>
      (if neg then ["-"%char] else []) ++
      (if m =? 0 then String.list_ascii_of_string "0.0" else repr_pos m e)
  end.

End PyNum.


(* ===================================================================== *)
(** * The telemetry node ([data.py]) *)
(* ===================================================================== *)

Module Telemetry.
Export PyNum.

(** ** Wire codec *)

(** [class CANMessage]: [timestamp], [can_id], [data]. *)
Record CANMessage := mkCANMessage {
  timestamp : double;
  can_id : Z;
  data : list byte
}.

(** [CANMessage.unpack]: [struct.unpack("!dI8s", binary_data)] on a
    20-byte slice. *)
Definition unpack (bs : list byte) : CANMessage :=
  {| timestamp := firstn 8 bs;
     can_id := be (firstn 4 (skipn 8 bs));
     data := firstn 8 (skipn 12 bs) |}.

(** One entry of the JSON list published on [can_messages]:
    [{"time": int(msg.timestamp * 1000), "canId": msg.can_id,
      "data": list(msg.data)}]. *)
Record pub_msg := mkPub {
  p_time : Z;
  p_canId : Z;
  p_data : list Z
}.

Section Codec.

(** [int(t * 1000)] on a double; [None] when it raises. *)
Variable to_millis : double -> option Z.

(** The dictionary built for one frame; [None] when [int(...)] raises. *)
Definition to_pub (m : CANMessage) : option pub_msg :=
  match to_millis (timestamp m) with
  | Some t => Some {| p_time := t;
                      p_canId := can_id m;
                      p_data := map (fun b => Z.of_nat (Byte.to_nat b)) (data m) |}
  | None => None
  end.

(** The frame loop of [udp_receiver]:
    [for _ in range(count): if offset + 20 > len(data): break; ...].
    [rest] is [data[offset:]]. *)
Fixpoint unpack_frames (count : nat) (rest : list byte) : list CANMessage :=
  match count with
  | O => []
  | S n =>
      if Nat.ltb (length rest) 20 then []
      else unpack (firstn 20 rest) :: unpack_frames n (skipn 20 rest)
  end.

End Codec.

(** ** Receiver gap state *)

(** [missing_seqs] is a Python set of ints, kept here as a duplicate-free
    list; [expected_seq] starts as [None]. *)
Record rx_state := mkRx {
  expected_seq : option Z;
  missing_seqs : list Z
}.

Definition rx_init : rx_state := {| expected_seq := None; missing_seqs := [] |}.

(** The cap in [if len(missing_seqs) > 1000]. *)
Definition MISSING_MAX : nat := 1000.

Definition zmem (x : Z) (s : list Z) : bool := existsb (Z.eqb x) s.

(** [set.add]. *)
Definition set_add (x : Z) (s : list Z) : list Z :=
  if zmem x s then s else x :: s.

(** [set.remove] / [set.discard]. *)
Definition set_remove (x : Z) (s : list Z) : list Z :=
  List.filter (fun y => negb (Z.eqb y x)) s.

(** [min(s)] on a non-empty set (the empty case never arises). *)
Definition set_min (s : list Z) : Z :=
  match s with
  | [] => 0
  | x :: r => fold_left Z.min r x
  end.

(** The gap loop
    [for s in range(expected_seq, seq): missing_seqs.add(s);
       if len(missing_seqs) > 1000: missing_seqs.remove(min(missing_seqs))],
    run for [n] iterations from [s].  The second component lists the
    sequences evicted by the cap, in order (an observation only: the code
    keeps no record of them). *)
Fixpoint add_gap (n : nat) (s : Z) (m : list Z) : list Z * list Z :=
  match n with
  | O => (m, [])
  | S n' =>
      let m1 := set_add s m in
      let '(m2, ev) :=
        if Nat.ltb MISSING_MAX (length m1)
        then (set_remove (set_min m1) m1, [set_min m1])
        else (m1, []) in
      let '(m3, ev') := add_gap n' (s + 1) m2 in
      (m3, ev ++ ev')
  end.

(** The anchor of [udp_receiver]: [expected_seq], or [seq] itself on the
    first datagram. *)
Definition exp_of (st : rx_state) (seq : Z) : Z :=
  match expected_seq st with None => seq | Some e => e end.

(** The header-driven part of [udp_receiver] for one datagram with
    sequence [seq]: anchoring, gap insertion, removal of [seq] from the
    missing set and [expected_seq = max(expected_seq, seq + 1)]. *)
Definition rx_header (st : rx_state) (seq : Z) : rx_state * list Z :=
  let e := match expected_seq st with None => seq | Some e => e end in
  let '(m1, ev) :=
    if Z.ltb e seq then add_gap (Z.to_nat (seq - e)) e (missing_seqs st)
    else (missing_seqs st, []) in
  let m2 := if zmem seq m1 then set_remove seq m1 else m1 in
  ({| expected_seq := Some (Z.max e (seq + 1)); missing_seqs := m2 |}, ev).

(** The gap state of [udp_receiver] after datagrams with the sequence
    numbers [seqs], in arrival order, and the sequences evicted on the
    way. *)
Fixpoint rx_seq_run (st : rx_state) (seqs : list Z) : rx_state * list Z :=
  match seqs with
  | [] => (st, [])
  | s :: r =>
      let '(st1, ev) := rx_header st s in
      let '(st2, ev') := rx_seq_run st1 r in
      (st2, ev ++ ev')
  end.

(** Result of [udp_receiver] on one datagram: the new state, the list
    published on [can_messages] ([None] when nothing is published), the
    sequences evicted from the missing set, and whether the iteration
    raised.  Only [sock_recv] is inside the loop's [try]: an exception of
    the frame loop ends [udp_receiver], and [asyncio.gather] in [run_base]
    propagates it. *)
Record rx_out := mkRxOut {
  rx_next : rx_state;
  rx_published : option (list pub_msg);
  rx_evicted : list Z;
  rx_raised : bool
}.

Section Receiver.

Variable to_millis : double -> option Z.

(** One iteration of the [while True] loop of [udp_receiver] on a
    received datagram [dgram].  The [stats] counters are not modelled.
    The gap state is updated before the frames are converted, so a
    conversion that raises leaves it updated and publishes nothing. *)
Definition udp_receive (st : rx_state) (dgram : list byte) : rx_out :=
  if Nat.ltb (length dgram) 10
  then {| rx_next := st; rx_published := None; rx_evicted := []; rx_raised := false |}
  else
    let seq := be (firstn 8 dgram) in
    let count := be (firstn 2 (skipn 8 dgram)) in
    let '(st', ev) := rx_header st seq in
    match mapM (to_pub to_millis) (unpack_frames (Z.to_nat count) (skipn 10 dgram)) with
    | Some msgs =>
        {| rx_next := st';
           rx_published := match msgs with [] => None | _ => Some msgs end;
           rx_evicted := ev; rx_raised := false |}
    | None => {| rx_next := st'; rx_published := None; rx_evicted := ev; rx_raised := true |}
    end.

(** Delivering the datagrams of [ds] in order: the final state, the
    concatenation of everything published, and whether [udp_receiver]
    died on the way (no later datagram is then processed). *)
Fixpoint rx_run (st : rx_state) (ds : list (list byte))
  : rx_state * list (list pub_msg) * bool :=
  match ds with
  | [] => (st, [], false)
  | d :: ds' =>
      let o := udp_receive st d in
      if rx_raised o then (rx_next o, [], true)
      else
        let '(st', out, dead) := rx_run (rx_next o) ds' in
        (st', match rx_published o with Some p => p :: out | None => out end, dead)
  end.

End Receiver.

(** ** Sender and ring buffer *)

Definition batch := list CANMessage.

(** [self.seq_num] and [self.buffer], a deque of
    [(seq_num, batch, inserted_at)]. *)
Record tx_state := mkTx {
  seq_num : Z;
  buffer : list (Z * batch * Z)
}.

Definition tx_init : tx_state := {| seq_num := 0; buffer := [] |}.

(** [BUFFER_DURATION = 60] seconds, in milliseconds. *)
Definition BUFFER_DURATION : Z := 60000.

(** [BATCH_TIMEOUT = 0.05] seconds, in milliseconds. *)
Definition BATCH_TIMEOUT : Z := 50.

(** [while self.buffer and time.time() - self.buffer[0][2] > BUFFER_DURATION:
       self.buffer.popleft()] *)
Fixpoint sweep (now : Z) (buf : list (Z * batch * Z)) : list (Z * batch * Z) :=
  match buf with
  | [] => []
  | (s, b, t) :: r => if Z.ltb BUFFER_DURATION (now - t) then sweep now r else buf
  end.

(** The emission branch of [udp_sender] at clock reading [now]:
    increment [seq_num], (send), append to the ring and sweep its front.
    The datagram itself is irrelevant to the ring and is not modelled. *)
Definition emit (st : tx_state) (b : batch) (now : Z) : tx_state :=
  let s := seq_num st + 1 in
  {| seq_num := s; buffer := sweep now (buffer st ++ [(s, b, now)]) |}.

(** A session of the sender: the emitted batches with the clock reading at
    each emission. *)
Definition run_sender (trace : list (batch * Z)) : tx_state :=
  fold_left (fun st '(b, now) => emit st b now) trace tx_init.

(** ** Resend server *)

(** One element of ["msgs"]:
    [{"t": m.timestamp, "id": m.can_id, "d": m.data.hex()}].  JSON carries
    the double unchanged (Python's float repr reads back exactly). *)
Record wire_msg := mkWire {
  w_t : double;
  w_id : Z;
  w_d : list ascii
}.

Definition hex_digit (n : nat) : ascii :=
  match n with
  | 0%nat => "0" | 1%nat => "1" | 2%nat => "2" | 3%nat => "3"
  | 4%nat => "4" | 5%nat => "5" | 6%nat => "6" | 7%nat => "7"
  | 8%nat => "8" | 9%nat => "9" | 10%nat => "a" | 11%nat => "b"
  | 12%nat => "c" | 13%nat => "d" | 14%nat => "e" | _ => "f"
  end.

(** [bytes.hex()]: two lower-case hex digits per byte. *)
Definition bytes_hex (bs : list byte) : list ascii :=
  flat_map (fun b => [hex_digit (Nat.div (Byte.to_nat b) 16);
                      hex_digit (Nat.modulo (Byte.to_nat b) 16)]) bs.

Definition to_wire (m : CANMessage) : wire_msg :=
  {| w_t := timestamp m; w_id := can_id m; w_d := bytes_hex (data m) |}.

(** The sequence number of a ring entry [(seq, batch, time)]. *)
Definition entry_seq (e : Z * batch * Z) : Z := fst (fst e).

(** [buffer_lookup = {item[0]: item[1] for item in self.buffer}]; the
    later entry wins on a repeated key. *)
Definition buffer_lookup (buf : list (Z * batch * Z)) (s : Z) : option batch :=
  fold_left (fun acc '(s', b, _) => if Z.eqb s' s then Some b else acc) buf None.

(** [handle_resend] on a parsed request [{"missing": req}]: the list of
    [{"seq": seq, "msgs": [...]}] for the requested sequences found in the
    ring, in request order. *)
Definition handle_resend (buf : list (Z * batch * Z)) (req : list Z) : list (Z * list wire_msg) :=
  flat_map (fun s => match buffer_lookup buf s with
                     | Some b => [(s, map to_wire b)]
                     | None => []
                     end) req.

(** ** Missing-packet reporter *)

Definition hex_val (c : ascii) : option nat :=
  let n := nat_of_ascii c in
  if Nat.leb 48 n && Nat.leb n 57 then Some (n - 48)%nat
  else if Nat.leb 97 n && Nat.leb n 102 then Some (n - 87)%nat
  else if Nat.leb 65 n && Nat.leb n 70 then Some (n - 55)%nat
  else None.

(** ASCII whitespace skipped by [bytes.fromhex] between byte pairs. *)
Definition is_space (c : ascii) : bool :=
  let n := nat_of_ascii c in
  Nat.eqb n 32 || (Nat.leb 9 n && Nat.leb n 13).

(** [bytes.fromhex(s)]; [None] is the [ValueError]. *)
Fixpoint fromhex (s : list ascii) : option (list byte) :=
  match s with
  | [] => Some []
  | c :: r =>
      if is_space c then fromhex r
      else match r with
           | [] => None
           | c2 :: r' =>
               match hex_val c, hex_val c2 with
               | Some hi, Some lo =>
                   match Byte.of_nat (hi * 16 + lo), fromhex r' with
                   | Some b, Some bs => Some (b :: bs)
                   | _, _ => None
                   end
               | _, _ => None
               end
           end
  end.

(** ** JSON texts exchanged over the resend connection *)

Definition quote : ascii := ascii_of_nat 34.

Definition newline : ascii := ascii_of_nat 10.

Definition ascii_of (s : string) : list ascii := String.list_ascii_of_string s.

(** The items of a list joined with [", "] ([json.dumps]'s default
    separator). *)
Fixpoint json_join (l : list (list ascii)) : list ascii :=
  match l with
  | [] => []
  | [x] => x
  | x :: r => x ++ ascii_of ", " ++ json_join r
  end.

Definition json_array (l : list (list ascii)) : list ascii :=
  ascii_of "[" ++ json_join l ++ ascii_of "]".

Definition json_int (z : Z) : list ascii := ascii_of (z_to_string z).

(** A key with its separator: [{"key": ]. *)
Definition json_key (k : string) : list ascii := quote :: ascii_of k ++ quote :: ascii_of ": ".

Section Json.

(** [float.__repr__] as [json.dumps] writes it. *)
Variable float_repr : double -> list ascii.

(** [json.dumps(request)] for [request = {"missing": req}]. *)
Definition json_request (req : list Z) : list ascii :=
  ascii_of "{" ++ json_key "missing" ++ json_array (map json_int req) ++ ascii_of "}".

(** [json.dumps] of [{"t": ..., "id": ..., "d": ...}]; the hex text needs
    no escaping. *)
Definition json_wire (m : wire_msg) : list ascii :=
  ascii_of "{" ++ json_key "t" ++ float_repr (w_t m) ++ ascii_of ", " ++
  json_key "id" ++ json_int (w_id m) ++ ascii_of ", " ++
  json_key "d" ++ quote :: w_d m ++ [quote] ++ ascii_of "}".

(** [json.dumps(response)] in [handle_resend]. *)
Definition json_response (resp : list (Z * list wire_msg)) : list ascii :=
  json_array (map (fun '(s, ms) =>
    ascii_of "{" ++ json_key "seq" ++ json_int s ++ ascii_of ", " ++
    json_key "msgs" ++ json_array (map json_wire ms) ++ ascii_of "}") resp).

End Json.

Section Reporter.

Variable to_millis : double -> option Z.
Variable float_repr : double -> list ascii.

(** [[{"time": int(m['t']*1000), "canId": m['id'],
      "data": list(bytes.fromhex(m['d']))} for m in item['msgs']]].
    [json.loads] reads each ["t"] back as the double that was written
    ([repr] round-trips; a NaN comes back as a NaN, for which [int] raises
    all the same), so [to_millis] applies to the sender's double. *)
Fixpoint decode_wire (ms : list wire_msg) : option (list pub_msg) :=
  match ms with
  | [] => Some []
  | m :: r =>
      match to_millis (w_t m), fromhex (w_d m), decode_wire r with
      | Some t, Some bs, Some ps =>
          Some ({| p_time := t; p_canId := w_id m;
                   p_data := map (fun b => Z.of_nat (Byte.to_nat b)) bs |} :: ps)
      | _, _, _ => None
      end
  end.

(** The loop [for item in resends: seq = item['seq'];
    if seq in missing_seqs: ...; self.publish(...); missing_seqs.remove(seq)]
    of [missing_reporter]: the new missing set and the lists published.
    A decoding error leaves the loop, keeping the removals made so far. *)
Fixpoint apply_resends (missing : list Z) (resends : list (Z * list wire_msg))
  : list Z * list (list pub_msg) :=
  match resends with
  | [] => (missing, [])
  | (s, ms) :: r =>
      if zmem s missing then
        match decode_wire ms with
        | Some ps =>
            let '(m', out) := apply_resends (set_remove s missing) r in
            (m', ps :: out)
        | None => (missing, [])
        end
      else apply_resends missing r
  end.

(** The request of [missing_reporter]:
    [{"missing": sorted(list(missing_seqs))[-100:]}]. *)
Definition resend_request (missing : list Z) : list Z :=
  let l := merge_sort Z.le missing in
  drop (length l - 100) l.

(** One cycle of [missing_reporter] whose [if missing_seqs:] test passed
    and whose connection succeeds, against the car's ring [buf]: the new
    missing set and the lists published.  [missing] is the set when the
    request is built, [missing'] when the response is processed (the
    receiver runs in between).  Each side reads once:
    [reader.read(1024)] on the car and [reader.read(65536)] on the base;
    [n_req] and [n_resp] are the byte counts available to those reads.
    A request cut short fails [json.loads] on the car, which then writes
    nothing, so the base reads [b""] and [continue]s.  A response cut
    short (a strict prefix of a JSON array never parses) makes
    [json.loads] raise on the base, caught by the [except]. *)
Definition reporter_cycle (missing missing' : list Z) (buf : list (Z * batch * Z))
    (n_req n_resp : nat) : list Z * list (list pub_msg) :=
  let req := resend_request missing in
  let resp := handle_resend buf req in
  let sent := if Nat.leb (length (json_request req)) (Nat.min 1024 n_req)
              then json_response float_repr resp ++ [newline] else [] in
  let data := firstn (Nat.min 65536 n_resp) sent in
  if Nat.eqb (length data) 0 then (missing', [])
  else if Nat.leb (length (json_response float_repr resp)) (length data)
  then apply_resends missing' resp
  else (missing', []).

End Reporter.

(** ** Sender-side packing *)

(** The byte of value [z] (for [0 <= z < 256]). *)
Definition byte_of_z (z : Z) : byte :=
  match Byte.of_nat (Z.to_nat z) with Some b => b | None => Byte.x00 end.

(** [n] as [w] big-endian bytes. *)
Fixpoint to_be (w : nat) (n : Z) : list byte :=
  match w with
  | O => []
  | S w' => to_be w' (n / 256) ++ [byte_of_z (n mod 256)]
  end.

(** [struct.pack] of an unsigned field of [w] bytes (["Q"], ["H"], ["I"]);
    [None] is the [struct.error] raised on a value out of range. *)
Definition pack_uint (w : nat) (n : Z) : option (list byte) :=
  if (0 <=? n) && (n <? 256 ^ Z.of_nat w) then Some (to_be w n) else None.

(** The ["8s"] field: the bytes truncated or padded with zero bytes to 8. *)
Definition pad8 (bs : list byte) : list byte :=
  firstn 8 bs ++ repeat Byte.x00 (8 - length bs).

(** [CANMessage.pack]: [struct.pack("!dI8s", timestamp, can_id, data)]. *)
Definition pack (m : CANMessage) : option (list byte) :=
  match pack_uint 4 (can_id m) with
  | Some idb => Some (timestamp m ++ idb ++ pad8 (data m))
  | None => None
  end.

(** The datagram built by the emission branch of [udp_sender]:
    [payload = struct.pack("!QH", self.seq_num, len(batch))], then
    [payload += m.pack()] for each message of the batch; [None] when one of
    the [struct.pack] calls raises. *)
Definition sender_payload (seq : Z) (b : batch) : option (list byte) :=
  match pack_uint 8 seq, pack_uint 2 (Z.of_nat (length b)), mapM pack b with
  | Some sb, Some cb, Some frames => Some (sb ++ cb ++ concat frames)
  | _, _, _ => None
  end.

(** The message [unpack] returns for a packed one: the data field goes
    through the ["8s"] format. *)
Definition normalize (m : CANMessage) : CANMessage :=
  {| timestamp := timestamp m; can_id := can_id m; data := pad8 (data m) |}.

(** The receiver's gap-state invariant: a bounded set of distinct
    sequence numbers, all below the expected one. *)
Definition rx_inv (st : rx_state) : Prop :=
  (length (missing_seqs st) <= MISSING_MAX)%nat /\ List.NoDup (missing_seqs st) /\
  (forall x, In x (missing_seqs st) -> exists e, expected_seq st = Some e /\ x < e).

End Telemetry.

(* ===================================================================== *)
(** * The PECAN viewer ([pecan/Backend/app.py], [pecan/app.py]) *)
(* ===================================================================== *)

Module Pecan.
Export PyNum.

(** ** JSON values and the Python builtins applied to them *)

(** A parsed JSON value.  JSON numbers are modelled as integers. *)
Inductive jvalue :=
| JNull
| JBool (b : bool)
| JInt (z : Z)
| JStr (s : string)
| JList (l : list jvalue)
| JObj (kv : list (string * jvalue)).

(** [d.get(k)] on a parsed JSON object (the last duplicate key wins, as
    with [json.loads]). *)
Definition jget (k : string) (kv : list (string * jvalue)) : option jvalue :=
  fold_left (fun acc '(k', v) => if String.eqb k k' then Some v else acc) kv None.

(** Python truthiness of a value read with [.get] ([None] when absent). *)
Definition truthy (v : option jvalue) : bool :=
  match v with
  | None | Some JNull => false
  | Some (JBool b) => b
  | Some (JInt z) => negb (Z.eqb z 0)
  | Some (JStr s) => negb (String.eqb s "")
  | Some (JList l) => negb (bool_decide (l = []))
  | Some (JObj kv) => negb (bool_decide (kv = []))
  end.

(** [bytes(x)] on a JSON value; [None] is the [TypeError]/[ValueError]. *)
Definition byte_of_jvalue (v : jvalue) : option byte :=
  match v with
  | JInt z => if (0 <=? z) && (z <=? 255) then Byte.of_nat (Z.to_nat z) else None
  | JBool b => Byte.of_nat (if b then 1%nat else 0%nat)
  | _ => None
  end.

Definition py_bytes (v : jvalue) : option (list byte) :=
  match v with
  | JList l => mapM byte_of_jvalue l
  | JInt n => if 0 <=? n then Some (repeat Byte.x00 (Z.to_nat n)) else None
  | JBool b => Some (repeat Byte.x00 (if b then 1%nat else 0%nat))
  | JObj [] => Some []
  | _ => None
  end.

Fixpoint join (sep : string) (l : list string) : string :=
  match l with
  | [] => ""
  | [x] => x
  | x :: r => String.append x (String.append sep (join sep r))
  end.

(** [repr] of a value (strings are quoted without escaping). *)
Fixpoint py_repr (v : jvalue) : string :=
  match v with
  | JNull => "None"
  | JBool b => if b then "True" else "False"
  | JInt z => z_to_string z
  | JStr s => String.append "'" (String.append s "'")
  | JList l => String.append "[" (String.append (join ", " (map py_repr l)) "]")
  | JObj kv =>
      String.append "{"
        (String.append
           (join ", " (map (fun '(k, x) => String.append "'" (String.append k
                              (String.append "': " (py_repr x)))) kv)) "}")
  end.

(** [str(v)]. *)
Definition py_str (v : jvalue) : string :=
  match v with
  | JStr s => s
  | _ => py_repr v
  end.

Definition is_space (c : ascii) : bool :=
  let n := nat_of_ascii c in
  Nat.eqb n 32 || (Nat.leb 9 n && Nat.leb n 13).

Fixpoint strip_left (s : list ascii) : list ascii :=
  match s with
  | c :: r => if is_space c then strip_left r else s
  | [] => []
  end.

Definition strip (s : list ascii) : list ascii := rev (strip_left (rev (strip_left s))).

Definition digit_val (base : Z) (c : ascii) : option Z :=
  let n := Z.of_nat (nat_of_ascii c) in
  let v := if (48 <=? n) && (n <=? 57) then Some (n - 48)
           else if (97 <=? n) && (n <=? 122) then Some (n - 87)
           else if (65 <=? n) && (n <=? 90) then Some (n - 55)
           else None in
  match v with Some d => if d <? base then Some d else None | None => None end.

Definition is_digit (base : Z) (c : ascii) : bool :=
  match digit_val base c with Some _ => true | None => false end.

(** Digits with single underscores between them. *)
Fixpoint digits_acc (base : Z) (s : list ascii) (acc : Z) : option Z :=
  match s with
  | [] => Some acc
  | c :: r =>
      if Ascii.eqb c "_" then
        match r with
        | c2 :: _ => if is_digit base c2 then digits_acc base r acc else None
        | [] => None
        end
      else match digit_val base c with
           | Some d => digits_acc base r (acc * base + d)
           | None => None
           end
  end.

(** The digits after a [0x]/[0o]/[0b] prefix (one leading underscore is
    allowed there). *)
Definition prefixed (base : Z) (s : list ascii) : option Z :=
  let s' := match s with c :: r => if Ascii.eqb c "_" then r else s | [] => s end in
  match s' with
  | c :: _ => if is_digit base c then digits_acc base s' 0 else None
  | [] => None
  end.

(** [sys.get_int_max_str_digits()], the default limit on the digits of a
    decimal string converted by [int]. *)
Definition MAX_STR_DIGITS : nat := 4300.

(** The limit check of a decimal literal: its digits, underscores apart. *)
Definition dec_digits_ok (s : list ascii) : bool :=
  Nat.leb (length (List.filter (fun c => negb (Ascii.eqb c "_")) s)) MAX_STR_DIGITS.

Definition decimal0 (s : list ascii) : option Z :=
  if dec_digits_ok s then digits_acc 10 s 0 else None.

Definition unsigned_base0 (s : list ascii) : option Z :=
  match s with
  | "0"%char :: p :: r =>
      if Ascii.eqb p "x" || Ascii.eqb p "X" then prefixed 16 r
      else if Ascii.eqb p "o" || Ascii.eqb p "O" then prefixed 8 r
      else if Ascii.eqb p "b" || Ascii.eqb p "B" then prefixed 2 r
      else match decimal0 s with Some 0 => Some 0 | _ => None end
  | c :: _ =>
      if is_digit 10 c then
        if Ascii.eqb c "0" then match decimal0 s with Some 0 => Some 0 | _ => None end
        else decimal0 s
      else None
  | [] => None
  end.

(** [int(x, 0)]: only strings are accepted with an explicit base. *)
Definition py_int0 (v : jvalue) : option Z :=
  match v with
  | JStr s =>
      match strip (String.list_ascii_of_string s) with
      | "-"%char :: r => option_map Z.opp (unsigned_base0 r)
      | "+"%char :: r => unsigned_base0 r
      | r => unsigned_base0 r
      end
  | _ => None
  end.

(** ** The CAN decoder *)

(** A message of the loaded DBC database (cantools): its name and its
    [decode(data, allow_truncated=True)], which returns the signal mapping
    or raises (the text of the exception). *)
Record dbc_message := mkDbcMessage {
  msg_name : string;
  msg_decode : list byte -> list (string * jvalue) + string
}.

(** The database's dictionary from frame-id keys to messages. *)
Definition database := list (Z * dbc_message).

(** The key cantools looks up for a frame id: the id masked to 32 bits,
    with bit 31 (the extended-frame flag) set when the masked id exceeds
    [0x7FF]. *)
Definition frame_id_key (id : Z) : Z :=
  let k := Z.land id 0xFFFFFFFF in
  if 0x7FF <? k then Z.lor k 0x80000000 else k.

(** [db.get_message_by_frame_id(can_id)]: a dictionary lookup of the key;
    a missing key raises [KeyError(key)], whose [str] is the key in
    decimal. *)
Definition get_message_by_frame_id (db : database) (id : Z) : dbc_message + string :=
  let key := frame_id_key id in
  match find (fun e => Z.eqb (fst e) key) db with
  | Some (_, m) => inl m
  | None => inr (z_to_string key)
  end.

(** The dictionary returned by [decode_can_message]; [error] is absent
    when [None]. *)
Record decoded := mkDecoded {
  can_id : jvalue;
  message_name : string;
  signals : list (string * jvalue);
  raw_data : list Z;
  error : option string
}.

Definition byte_z (b : byte) : Z := Z.of_nat (Byte.to_nat b).

(** [decode_can_message(can_id, data)] with the module-level [db]
    ([None] when no DBC file was loaded).  The result is [None] when the
    call raises: with a database, a [can_id] that is not an int makes the
    lookup fail and then [hex(can_id)] in the handler raises [TypeError]
    (a JSON boolean is a Python int and is looked up as 0 or 1). *)
Definition decode_can_message (db : option database) (cid : jvalue) (d : list byte)
  : option decoded :=
  let raw := map byte_z d in
  let unknown e := {| can_id := cid; message_name := "Unknown"; signals := [];
                      raw_data := raw; error := Some e |} in
  let lookup (z : Z) (dbc : database) :=
    match get_message_by_frame_id dbc z with
    | inl m =>
        match msg_decode m d with
        | inl sig => Some {| can_id := cid; message_name := msg_name m; signals := sig;
                             raw_data := raw; error := None |}
        | inr e => Some (unknown e)
        end
    | inr key_text => Some (unknown key_text)
    end in
  match db with
  | None => Some {| can_id := cid; message_name := "Raw"; signals := [];
                    raw_data := raw; error := Some "No DBC file loaded" |}
  | Some dbc =>
      match cid with
      | JInt z => lookup z dbc
      | JBool b => lookup (if b then 1 else 0) dbc
      | _ => None
      end
  end.

(** ** The message history *)

(** A history entry: the decoded dictionary with its ["timestamp"] and
    ["received_timestamp"] (datetimes, in microseconds).  An aware
    ["timestamp"] ([ts_aware]) is the UTC instant; a naive one, like every
    ["received_timestamp"], is the local wall-clock reading. *)
Record hist_rec := mkHistRec {
  rec : decoded;
  timestamp : Z;
  ts_aware : bool;
  received_timestamp : Z
}.

Definition MESSAGE_HISTORY_LIMIT : nat := 1000.

(** [CAN_MESSAGES.append(decoded);
     if len(CAN_MESSAGES) > MESSAGE_HISTORY_LIMIT: CAN_MESSAGES.pop(0)] *)
Definition append_history (h : list hist_rec) (r : hist_rec) : list hist_rec :=
  let h' := h ++ [r] in
  if Nat.ltb MESSAGE_HISTORY_LIMIT (length h') then tail h' else h'.

(** ** The SSE broker *)

(** [Queue(maxsize=1000)]. *)
Definition QUEUE_MAXSIZE : nat := 1000.

(** The queues are shared objects: [queues] is the store of every queue
    ever created (by handle), [sse_clients] is [SSE_CLIENTS], the set of
    registered handles. *)
Record broker := mkBroker {
  sse_clients : gset nat;
  queues : gmap nat (list string)
}.

Definition broker_init : broker := {| sse_clients := ∅; queues := ∅ |}.

(** [_sse_subscribe()]: a new empty queue, registered. *)
Definition sse_subscribe (b : broker) : broker * nat :=
  let h := fresh (dom (queues b)) in
  ({| sse_clients := {[h]} ∪ sse_clients b; queues := <[h := []]> (queues b) |}, h).

(** [_sse_unsubscribe(q)]: [SSE_CLIENTS.discard(q)]. *)
Definition sse_unsubscribe (b : broker) (h : nat) : broker :=
  {| sse_clients := sse_clients b ∖ {[h]}; queues := queues b |}.

(** [q.put_nowait(payload)] inside [try ... except Exception: pass]: a full
    queue raises [queue.Full], which is swallowed. *)
Definition put_nowait (qs : gmap nat (list string)) (h : nat) (p : string)
  : gmap nat (list string) :=
  match qs !! h with
  | Some q => if Nat.ltb (length q) QUEUE_MAXSIZE then <[h := q ++ [p]]> qs else qs
  | None => qs
  end.

(** [sse_broadcast(payload)]: snapshot [list(SSE_CLIENTS)] under the lock,
    then [put_nowait] on each queue of the snapshot. *)
Definition sse_broadcast (b : broker) (p : string) : broker :=
  {| sse_clients := sse_clients b;
     queues := foldl (fun qs h => put_nowait qs h p) (queues b) (elements (sse_clients b)) |}.

(** [q.get()] by the stream generator of a subscriber. *)
Definition sse_get (b : broker) (h : nat) : broker * option string :=
  match queues b !! h with
  | Some (p :: r) => ({| sse_clients := sse_clients b; queues := <[h := r]> (queues b) |}, Some p)
  | _ => (b, None)
  end.

(** ** Ingestion: the named-pipe listener and [POST /api/import] *)

(** Outcome of [import_can_message]: [201] success, [400] ["Invalid data"],
    [400] ["Decoding failed: ..."], or an uncaught exception (HTTP 500). *)
Inductive import_status := Created | InvalidData | DecodingFailed | ServerError.

Definition status_code (s : import_status) : Z :=
  match s with
  | Created => 201
  | InvalidData | DecodingFailed => 400
  | ServerError => 500
  end.

(** The range of [datetime]: years 1 to 9999, in microseconds from the
    epoch. *)
Definition MIN_US : Z := -62135596800 * 1000000.
Definition MAX_US : Z := 253402300800 * 1000000 - 1.

Definition in_range (t : Z) : bool := (MIN_US <=? t) && (t <=? MAX_US).

Section Clock.

(** The local UTC offset, in microseconds, at an instant: the wall clock
    reads [t + local_offset t] at the instant [t]. *)
Variable local_offset : Z -> Z.

Definition wall (t : Z) : Z := t + local_offset t.

(** [datetime.fromtimestamp(v / 1000, tz=timezone.utc).astimezone()] for
    a JSON number [v], as a UTC instant in microseconds.  [v / 1000] is
    the correctly rounded true division ([OverflowError] beyond the
    doubles).  [fromtimestamp] splits it with [modf], scales the fraction
    by [1e6] in floating point and rounds it half to even; the result and
    its local time must lie within the [datetime] range ([ValueError],
    [OverflowError]).  [None] is any of these exceptions, and the
    [TypeError] on a value that is not a number. *)
Definition time_us (v : jvalue) : option Z :=
  let z := match v with JInt z => Some z | JBool b => Some (if b then 1 else 0) | _ => None end in
  match z with
  | None => None
  | Some z =>
      match round_double z 1000 with
      | None => None
      | Some (m, q) =>
          let ip := dy_trunc (m, q) in
          let us :=
            if 0 <=? q then 0
            else match round_double ((m - ip * 2 ^ (- q)) * 1000000) (2 ^ (- q)) with
                 | Some (m2, q2) =>
                     if 0 <=? q2 then m2 * 2 ^ q2 else rne_div m2 (2 ^ (- q2))
                 | None => 0
                 end in
          let t := ip * 1000000 + us in
          if in_range t && in_range (wall t) then Some t else None
      end
  end.

(** The statement block of [named_pipe_listener] for one parsed line
    [msg], up to the append: the history entry, or [None] when one of
    [msg['id']], [bytes(msg['data'])], the timestamp conversion or the
    decoder raises (the exception is printed and the line skipped).  [now]
    is the instant of [datetime.now()]. *)
Definition pipe_record (db : option database) (now : Z) (msg : jvalue) : option hist_rec :=
  match msg with
  | JObj kv =>
      match jget "id" kv, jget "data" kv, jget "time" kv with
      | Some cid, Some dv, Some tv =>
          match py_bytes dv, time_us tv with
          | Some d, Some t =>
              match decode_can_message db cid d with
              | Some r => Some {| rec := r; timestamp := t; ts_aware := true;
                                  received_timestamp := wall now |}
              | None => None
              end
          | _, _ => None
          end
      | _, _, _ => None
      end
  | _ => None
  end.

Section Ingest.

(** The SSE frame [broadcast_event] builds for a stored entry:
    [sse_format(json.dumps(decoded, ...), event="can", _id=str(can_id))]. *)
Variable can_event : hist_rec -> string.

(** One line of [named_pipe_listener] in [pecan/Backend/app.py]: append
    to the history under the lock, then broadcast. *)
Definition pipe_message (db : option database) (now : Z) (msg : jvalue)
    (h : list hist_rec) (b : broker) : list hist_rec * broker :=
  match pipe_record db now msg with
  | Some r => (append_history h r, sse_broadcast b (can_event r))
  | None => (h, b)
  end.

(** [import_can_message] of [pecan/Backend/app.py] on the parsed body
    [data = request.get_json()] ([pecan/app.py] is the same route without
    the broadcast).  [now0] and [now] are the instants of the two calls of
    [datetime.now()] (the first is made only without ["time"]). *)
Definition import_can_message (db : option database) (now0 now : Z) (body : jvalue)
    (h : list hist_rec) (b : broker) : import_status * list hist_rec * broker :=
  match body with
  | JObj kv =>
      let can_id_str := jget "id" kv in
      let raw_data := jget "data" kv in
      let original := match jget "time" kv with
                      | Some tv => option_map (fun t => (t, true)) (time_us tv)
                      | None => Some (wall now0, false)
                      end in
      match original with
      | None => (ServerError, h, b)
      | Some (ots, aware) =>
          if truthy can_id_str && truthy raw_data then
            match can_id_str, raw_data with
            | Some cs, Some rv =>
                match py_int0 cs, py_bytes rv with
                | Some cid, Some d =>
                    match decode_can_message db (JInt cid) d with
                    | Some r =>
                        let e := {| rec := r; timestamp := ots; ts_aware := aware;
                                    received_timestamp := wall now |} in
                        (Created, append_history h e, sse_broadcast b (can_event e))
                    | None => (DecodingFailed, h, b)
                    end
                | _, _ => (DecodingFailed, h, b)
                end
            | _, _ => (InvalidData, h, b)
            end
          else (InvalidData, h, b)
      end
  | _ => (ServerError, h, b)
  end.

End Ingest.

End Clock.

(** ** The Dash table query [update_table] *)

(** The callback's inputs ([None] is a Python [None]). *)
Record query := mkQuery {
  time_range : option Z;
  can_id_filter : option string;
  name_filter : option string;
  filter_mode : option string
}.

(** [l[i:]] for an int [i]. *)
Definition py_slice_from {A} (l : list A) (i : Z) : list A :=
  let n := Z.of_nat (length l) in
  let start := if i <? 0 then Z.max 0 (n + i) else Z.min i n in
  drop (Z.to_nat start) l.

Definition truthy_str (s : option string) : bool :=
  match s with Some x => negb (String.eqb x "") | None => false end.

Section Table.

Variable local_offset : Z -> Z.

(** [timedelta(seconds=tr)] exists: at most 999999999 days either way. *)
Definition timedelta_ok (tr : Z) : bool :=
  (-999999999 * 86400 <=? tr) && (tr <? 1000000000 * 86400).

(** The window selected by [filter_mode] ([now] is the instant of
    [datetime.now()]); [None] when the callback raises: the cutoff
    datetime is out of range ([OverflowError]), or in ["original_time"]
    mode an entry has a naive ["timestamp"], which cannot be compared with
    the aware cutoff ([TypeError]). *)
Definition window (msgs : list hist_rec) (now tr : Z) (mode : string) : option (list hist_rec) :=
  if String.eqb mode "all" then Some msgs
  else if String.eqb mode "count" then
    Some (py_slice_from msgs (- Z.min tr (Z.of_nat (length msgs))))
  else if String.eqb mode "received_time" then
    let cutoff := wall local_offset now - tr * 1000000 in
    if timedelta_ok tr && in_range cutoff
    then Some (List.filter (fun m => cutoff <=? received_timestamp m) msgs)
    else None
  else
    let cutoff := now - tr * 1000000 in
    if timedelta_ok tr && in_range (wall local_offset now - tr * 1000000) then
      if forallb ts_aware msgs
      then Some (List.filter (fun m => cutoff <=? timestamp m) msgs)
      else None
    else None.

(** The ID and name filters:
    [id_ok = not can_id or str(msg['can_id']) == can_id],
    [name_ok = not message_name or msg['message_name'] == message_name]. *)
Definition id_name_ok (cid name : option string) (m : hist_rec) : bool :=
  (negb (truthy_str cid) ||
     match cid with Some c => String.eqb (py_str (can_id (rec m))) c | None => true end) &&
  (negb (truthy_str name) ||
     match name with Some n => String.eqb (message_name (rec m)) n | None => true end).

(** [time_range = time_range or 600]. *)
Definition range_or_default (tr : option Z) : Z :=
  match tr with
  | Some z => if Z.eqb z 0 then 600 else z
  | None => 600
  end.

(** [filter_mode = filter_mode or 'received_time']. *)
Definition mode_or_default (m : option string) : string :=
  match m with
  | Some x => if String.eqb x "" then "received_time" else x
  | None => "received_time"
  end.

(** [update_table(n, time_range, can_id, message_name, filter_mode)] on the
    snapshot [messages = CAN_MESSAGES[:]], up to the display formatting,
    which turns each selected entry into one table row, in order; [None]
    when the callback raises. *)
Definition update_table (messages : list hist_rec) (now : Z) (q : query)
  : option (list hist_rec) :=
  let tr := range_or_default (time_range q) in
  let mode := mode_or_default (filter_mode q) in
  match window messages now tr mode with
  | None => None
  | Some filtered =>
      let filtered :=
        if truthy_str (can_id_filter q) || truthy_str (name_filter q)
        then List.filter (id_name_ok (can_id_filter q) (name_filter q)) filtered
        else filtered in
      let filtered := rev filtered in
      Some (if Nat.ltb 100 (length filtered) then take 100 filtered else filtered)
  end.

End Table.

End Pecan.

(* ===================================================================== *)
(** * Concrete inputs used by the examples below *)
(* ===================================================================== *)

Module Samples.
Import Telemetry.

Definition bz (n : nat) : byte :=
  match Byte.of_nat n with Some b => b | None => Byte.x00 end.

(** A batch header [struct.pack("!QH", seq, count)] for small values. *)
Definition header (seq count : nat) : list byte :=
  map bz [0; 0; 0; 0; 0; 0; 0; seq; 0; count]%nat.

(** The frame [(t = +0.0, id = 0x123, data = 01..08)] as packed by
    [CANMessage.pack]. *)
Definition frame_0x123 : list byte :=
  map bz [0; 0; 0; 0; 0; 0; 0; 0; 0; 0; 1; 35; 1; 2; 3; 4; 5; 6; 7; 8]%nat.

(** A well-formed datagram: sequence 1, one frame (30 bytes). *)
Definition dgram_seq1 : list byte := header 1 1 ++ frame_0x123.


Definition msg_0x123 : CANMessage := unpack frame_0x123.

Definition batch_0x123 : batch := [msg_0x123].

(** The frame [(t = NaN, id = 0x123, data = 01..08)]: the timestamp is
    the quiet NaN [0x7FF8000000000000]. *)
Definition frame_nan : list byte :=
  map bz [127; 248; 0; 0; 0; 0; 0; 0; 0; 0; 1; 35; 1; 2; 3; 4; 5; 6; 7; 8]%nat.

(** Sequence 1 with the NaN frame, then a well-formed sequence 2. *)
Definition dgram_nan : list byte := header 1 1 ++ frame_nan.

Definition dgram_seq2 : list byte := header 2 1 ++ frame_0x123.


End Samples.


(** Concrete inputs for the viewer. *)
Module PecanSamples.
Import Pecan.

(** A database with the single message [VCU] (frame id 192), whose decoder
    returns no signals. *)
Definition db_vcu : database :=
  [(192, {| msg_name := "VCU"; msg_decode := fun _ => inl [] |})].

(** A stored entry. *)
Definition hrec : hist_rec :=
  {| rec := {| can_id := JInt 192; message_name := "Raw"; signals := [];
               raw_data := []; error := Some "No DBC file loaded" |};
     timestamp := 0; ts_aware := true; received_timestamp := 0 |}.

(** The body [{"id": "0", "data": [1]}] of [POST /api/import]. *)
Definition import_id_zero : jvalue := JObj [("id", JStr "0"); ("data", JList [JInt 1])].

(** Any SSE frame serves for the examples. *)
Definition no_event : hist_rec -> string := fun _ => "".

(** A host whose local time zone is UTC. *)
Definition utc : Z -> Z := fun _ => 0.

(** A pipe line [{"id": 192, "data": [1], "time": 0}]. *)
Definition pipe_line : jvalue :=
  JObj [("id", JInt 192); ("data", JList [JInt 1]); ("time", JInt 0)].

End PecanSamples.

(* ===================================================================== *)
(** * Proofs about the telemetry node *)
(* ===================================================================== *)

Module TelemetryFacts.
Import Telemetry.

(** ** Set operations *)

Lemma zmem_In x s : zmem x s = true <-> In x s.
Proof.
  unfold zmem. rewrite existsb_exists. split.
  - intros (y & Hy & E). apply Z.eqb_eq in E. now subst.
  - intros H. exists x. split; [exact H | apply Z.eqb_refl].
Qed.

Lemma zmem_false x s : zmem x s = false <-> ~ In x s.
Proof.
  rewrite <- zmem_In. destruct (zmem x s); split; congruence || (intros; discriminate) || tauto.
Qed.

Lemma set_remove_In x y s : In y (set_remove x s) <-> In y s /\ y <> x.
Proof.
  unfold set_remove. rewrite filter_In, negb_true_iff, Z.eqb_neq. tauto.
Qed.

Lemma set_remove_notin x s : ~ In x s -> set_remove x s = s.
Proof.
  induction s as [|y s IH]; intros Hn; [reflexivity|].
  cbn. assert (y <> x) as Hyx by (intros ->; apply Hn; left; reflexivity).
  apply Z.eqb_neq in Hyx. rewrite Hyx. cbn. f_equal. apply IH. intros H; apply Hn; right; exact H.
Qed.

Lemma set_add_In x y s : In y (set_add x s) <-> y = x \/ In y s.
Proof.
  unfold set_add. destruct (zmem x s) eqn:E.
  - apply zmem_In in E. split; [tauto|]. intros [->|H]; assumption.
  - cbn. split; intros [H|H]; auto.
Qed.

Lemma fold_min_In r x : In (fold_left Z.min r x) (x :: r).
Proof.
  revert x. induction r as [|y r IH]; intros x; [left; reflexivity|].
  cbn. specialize (IH (Z.min x y)). destruct IH as [E|H].
  - rewrite <- E. destruct (Z.min_spec x y) as [[_ ->]|[_ ->]]; [left; reflexivity|right; left; reflexivity].
  - right; right; exact H.
Qed.

Lemma set_min_In s : s <> [] -> In (set_min s) s.
Proof. destruct s as [|x r]; [congruence|]. intros _. apply fold_min_In. Qed.

(** ** The gap loop *)

(** The gap loop inserts [s, s + n) into the missing set; whatever it
    evicts was in the set or in that range, and nothing is lost otherwise. *)
Lemma add_gap_spec n s m :
  forall x, In x (fst (add_gap n s m)) \/ In x (snd (add_gap n s m)) <->
            In x m \/ (s <= x < s + Z.of_nat n).
Proof.
  revert s m. induction n as [|n IH]; intros s m x.
  - cbn. split; intros [H|H]; [left; exact H|destruct H|left; exact H|lia].
  - cbn [add_gap].
    set (m1 := set_add s m).
    assert (Hm1 : forall y, In y m1 <-> y = s \/ In y m) by (intros; apply set_add_In).
    destruct (Nat.ltb MISSING_MAX (length m1)) eqn:Ecap.
    + destruct (add_gap n (s + 1) (set_remove (set_min m1) m1)) as [m3 ev'] eqn:E3.
      cbn [fst snd]. pose proof (IH (s + 1) (set_remove (set_min m1) m1) x) as IHx.
      rewrite E3 in IHx. cbn [fst snd] in IHx.
      assert (Hin : In (set_min m1) m1).
      { apply set_min_In. intros Hnil. assert (In s m1) by (apply Hm1; left; reflexivity).
        rewrite Hnil in H. destruct H. }
      rewrite in_app_iff. cbn. rewrite set_remove_In in IHx.
      split.
      * intros [H|[[H|[]]|H]].
        -- assert ((In x m1 /\ x <> set_min m1) \/ (s + 1 <= x < s + 1 + Z.of_nat n)) as [[H' _]|H'] by (apply IHx; tauto).
           ++ apply Hm1 in H'. destruct H' as [->|H']; [right; lia|left; exact H'].
           ++ right; lia.
        -- subst x. apply Hm1 in Hin. destruct Hin as [->|Hin]; [right; lia|left; exact Hin].
        -- assert ((In x m1 /\ x <> set_min m1) \/ (s + 1 <= x < s + 1 + Z.of_nat n)) as [[H' _]|H'] by (apply IHx; tauto).
           ++ apply Hm1 in H'. destruct H' as [->|H']; [right; lia|left; exact H'].
           ++ right; lia.
      * intros Hx.
        assert (Hx' : In x m1 \/ (s + 1 <= x < s + 1 + Z.of_nat n)).
        { destruct Hx as [Hx|Hx]; [left; apply Hm1; right; exact Hx|].
          destruct (Z.eq_dec x s) as [->|Hne]; [left; apply Hm1; left; reflexivity|right; lia]. }
        destruct (Z.eq_dec x (set_min m1)) as [->|Hne].
        -- right; left; left; reflexivity.
        -- destruct Hx' as [Hx'|Hx'].
           ++ assert (In x m3 \/ In x ev') as [?|?] by (apply IHx; left; split; assumption); [left|right; right]; assumption.
           ++ assert (In x m3 \/ In x ev') as [?|?] by (apply IHx; right; exact Hx'); [left|right; right]; assumption.
    + destruct (add_gap n (s + 1) m1) as [m3 ev'] eqn:E3.
      cbn [fst snd app]. pose proof (IH (s + 1) m1 x) as IHx.
      rewrite E3 in IHx. cbn [fst snd] in IHx. rewrite IHx, Hm1. split.
      * intros [[->|H]|H]; [right; lia|left; exact H|right; lia].
      * intros [H|H]; [left; right; exact H|].
        destruct (Z.eq_dec x s) as [->|Hne]; [left; left; reflexivity|right; lia].
Qed.

(** ** One header *)

(** What [rx_header] does to the gap state: [expected_seq] becomes
    [max(e, seq + 1)], [seq] leaves the missing set, and the missing set
    together with the evicted sequences is the old set plus [e, seq). *)
Lemma rx_header_spec st seq :
  let e := exp_of st seq in
  expected_seq (fst (rx_header st seq)) = Some (Z.max e (seq + 1)) /\
  ~ In seq (missing_seqs (fst (rx_header st seq))) /\
  (forall x, x <> seq ->
     (In x (missing_seqs (fst (rx_header st seq))) \/ In x (snd (rx_header st seq)) <->
      In x (missing_seqs st) \/ (e <= x < seq))) /\
  (forall x, In x (snd (rx_header st seq)) -> In x (missing_seqs st) \/ (e <= x < seq)).
Proof.
  cbn zeta. unfold rx_header. fold (exp_of st seq).
  set (e := exp_of st seq).
  destruct (Z.ltb e seq) eqn:Elt.
  - apply Z.ltb_lt in Elt.
    pose proof (add_gap_spec (Z.to_nat (seq - e)) e (missing_seqs st)) as G.
    destruct (add_gap (Z.to_nat (seq - e)) e (missing_seqs st)) as [m1 ev].
    cbn [fst snd] in *. rewrite Z2Nat.id in G by lia.
    assert (Hm2 : forall x, In x (if zmem seq m1 then set_remove seq m1 else m1) <-> In x m1 /\ x <> seq).
    { intros x. destruct (zmem seq m1) eqn:Z1; [apply set_remove_In|].
      apply zmem_false in Z1. split; [intros H; split; [exact H|intros ->; contradiction]|tauto]. }
    cbn. split; [reflexivity|]. split; [rewrite Hm2; tauto|]. split.
    + intros x Hx. rewrite Hm2. specialize (G x).
      replace (e + (seq - e)) with seq in G by lia. rewrite <- G. tauto.
    + intros x Hx. specialize (G x). replace (e + (seq - e)) with seq in G by lia.
      apply G. right; exact Hx.
  - apply Z.ltb_ge in Elt.
    assert (Hm2 : forall x, In x (if zmem seq (missing_seqs st) then set_remove seq (missing_seqs st) else missing_seqs st) <-> In x (missing_seqs st) /\ x <> seq).
    { intros x. destruct (zmem seq (missing_seqs st)) eqn:Z1; [apply set_remove_In|].
      apply zmem_false in Z1. split; [intros H; split; [exact H|intros ->; contradiction]|tauto]. }
    cbn. split; [reflexivity|]. split; [rewrite Hm2; tauto|]. split.
    + intros x Hx. rewrite Hm2. split.
      * intros [[H _]|[]]. left; exact H.
      * intros [H|H]; [left; split; assumption|lia].
    + intros x [].
Qed.

Lemma rx_header_again st seq :
  rx_header (fst (rx_header st seq)) seq = (fst (rx_header st seq), []).
Proof.
  destruct (rx_header_spec st seq) as (Hexp & Hnot & _).
  destruct (fst (rx_header st seq)) as [ex m] eqn:E. cbn in Hexp, Hnot. subst ex.
  unfold rx_header. cbn.
  replace (Z.max (exp_of st seq) (seq + 1) <? seq) with false by (symmetry; apply Z.ltb_ge; lia).
  apply zmem_false in Hnot. rewrite Hnot. do 3 f_equal. lia.
Qed.

(** ** Partial maps *)

Lemma mapM_None_iff {A B} (f : A -> option B) l :
  mapM f l = None <-> exists x, In x l /\ f x = None.
Proof.
  induction l as [|x l IH]; cbn.
  - split; [discriminate|intros (y & [] & _)].
  - destruct (f x) as [y|] eqn:Fx; cbn.
    + destruct (mapM f l) as [k|] eqn:M; cbn.
      * split; [discriminate|]. intros (z & [<-|Hz] & Hfz); [congruence|].
        assert (Some k = None) by (apply IH; exists z; auto). discriminate.
      * split; [intros _|reflexivity]. destruct IH as [IH _].
        destruct (IH eq_refl) as (z & Hz & Hfz). exists z; auto.
    + split; [intros _; exists x; auto|reflexivity].
Qed.

Lemma mapM_length {A B} (f : A -> option B) l k :
  mapM f l = Some k -> length k = length l.
Proof.
  revert k. induction l as [|x l IH]; intros k; cbn.
  - intros H. injection H as <-. reflexivity.
  - destruct (f x); cbn; [|discriminate].
    destruct (mapM f l) eqn:M; cbn; [|discriminate].
    intros H. injection H as <-. cbn. f_equal. apply IH. reflexivity.
Qed.

Lemma mapM_cons_eq {A B} (f : A -> option B) x l :
  mapM f (x :: l) = match f x with
                    | Some y => match mapM f l with Some k => Some (y :: k) | None => None end
                    | None => None
                    end.
Proof. cbn. destruct (f x); cbn; [destruct (mapM f l)|]; reflexivity. Qed.

Lemma mapM_map_Some {A B} (f : A -> option B) (g : A -> B) l :
  (forall x, In x l -> f x = Some (g x)) -> mapM f l = Some (map g l).
Proof.
  induction l as [|x l IH]; intros H; [reflexivity|].
  cbn. rewrite (H x (or_introl eq_refl)). cbn.
  rewrite IH by (intros y Hy; apply H; right; exact Hy). reflexivity.
Qed.

Section Receiving.

Variable to_millis : double -> option Z.

Lemma to_pub_None m : to_pub to_millis m = None <-> to_millis (timestamp m) = None.
Proof. unfold to_pub. destruct (to_millis (timestamp m)); split; congruence. Qed.

Lemma udp_receive_next st d :
  rx_next (udp_receive to_millis st d) =
  if Nat.ltb (length d) 10 then st else fst (rx_header st (be (firstn 8 d))).
Proof.
  unfold udp_receive. destruct (Nat.ltb (length d) 10); [reflexivity|].
  destruct (rx_header st (be (firstn 8 d))). destruct (mapM _ _); reflexivity.
Qed.

(** What a datagram of 10 bytes or more publishes, and whether it
    raises, depends on its frames only. *)
Lemma udp_receive_frames st d :
  Nat.ltb (length d) 10 = false ->
  let ms := mapM (to_pub to_millis)
              (unpack_frames (Z.to_nat (be (firstn 2 (skipn 8 d)))) (skipn 10 d)) in
  rx_published (udp_receive to_millis st d) =
    match ms with Some [] | None => None | Some l => Some l end /\
  rx_raised (udp_receive to_millis st d) = match ms with Some _ => false | None => true end.
Proof.
  intros Hl. cbn zeta. unfold udp_receive. rewrite Hl.
  destruct (rx_header st (be (firstn 8 d))).
  destruct (mapM _ _) as [[|x0 r0]|]; split; reflexivity.
Qed.

Lemma udp_receive_short st d :
  Nat.ltb (length d) 10 = true ->
  rx_published (udp_receive to_millis st d) = None /\ rx_raised (udp_receive to_millis st d) = false.
Proof. intros Hl. unfold udp_receive. rewrite Hl. split; reflexivity. Qed.

(** A second delivery of the same datagram leaves the gap state where the
    first one put it, and publishes and raises as the first one did. *)
Lemma udp_receive_again st d :
  let st1 := rx_next (udp_receive to_millis st d) in
  rx_next (udp_receive to_millis st1 d) = st1 /\
  rx_published (udp_receive to_millis st1 d) = rx_published (udp_receive to_millis st d) /\
  rx_raised (udp_receive to_millis st1 d) = rx_raised (udp_receive to_millis st d).
Proof.
  cbn zeta. rewrite !udp_receive_next.
  destruct (Nat.ltb (length d) 10) eqn:Hl.
  - destruct (udp_receive_short st d Hl) as [P1 R1].
    destruct (udp_receive_short st d Hl) as [P2 R2].
    split; [reflexivity|]. split; reflexivity.
  - rewrite rx_header_again.
    destruct (udp_receive_frames (fst (rx_header st (be (firstn 8 d)))) d Hl) as [P1 R1].
    destruct (udp_receive_frames st d Hl) as [P2 R2].
    cbn zeta in *. rewrite P1, P2, R1, R2. split; [reflexivity|split; reflexivity].
Qed.

Lemma rx_run_repeat_fixed st1 d n :
  rx_next (udp_receive to_millis st1 d) = st1 ->
  rx_raised (udp_receive to_millis st1 d) = false ->
  rx_run to_millis st1 (repeat d n) =
  (st1, match rx_published (udp_receive to_millis st1 d) with
        | Some p => repeat p n
        | None => []
        end, false).
Proof.
  intros Hfix Hr. induction n as [|n IH].
  - cbn. destruct (rx_published _); reflexivity.
  - cbn [repeat rx_run]. rewrite Hr, Hfix, IH.
    destruct (rx_published (udp_receive to_millis st1 d)); reflexivity.
Qed.

End Receiving.

(** ** C1: repeated delivery *)

(** (C1, amended) Delivering a datagram [D] any number [n + 1] of times
    leaves [udp_receiver] in the gap state (expected sequence, missing
    set) reached after the first delivery.  When no timestamp of [D] makes
    [int(t * 1000)] raise, every delivery publishes the datagram's frames
    again: the published output is [n + 1] copies of the first delivery's
    publication.  Otherwise the first delivery updates the gap state,
    publishes nothing and kills [udp_receiver], so no later datagram is
    processed. *)
Theorem repeated_delivery_state_idempotent (to_millis : double -> option Z) st d n :
  let o := udp_receive to_millis st d in
  rx_run to_millis st (repeat d (S n)) =
  if rx_raised o then (rx_next o, [], true)
  else (rx_next o,
        match rx_published o with
        | Some p => repeat p (S n)
        | None => []
        end, false).
Proof.
  cbn zeta. cbn [repeat rx_run].
  destruct (udp_receive_again to_millis st d) as (Hfix & Hpub & Hr). cbn zeta in Hfix, Hpub, Hr.
  destruct (rx_raised (udp_receive to_millis st d)) eqn:R; [reflexivity|].
  rewrite (rx_run_repeat_fixed to_millis _ d n Hfix Hr).
  rewrite Hpub.
  destruct (rx_published (udp_receive to_millis st d)); reflexivity.
Qed.

(** (C1, counterexample) Delivering the well-formed datagram
    with sequence 1 twice to a fresh receiver publishes its frame twice,
    while one delivery publishes it once. *)
Lemma duplicate_delivery_republishes :
  snd (fst (rx_run py_int_times_1000 rx_init [Samples.dgram_seq1; Samples.dgram_seq1])) <>
  snd (fst (rx_run py_int_times_1000 rx_init [Samples.dgram_seq1])).
Proof. vm_compute. discriminate. Qed.

(** ** C2: length checks *)




(** ** C4: gap tracking *)

Lemma rx_seq_run_inv rest :
  forall st D E s1 hi,
    expected_seq st = Some (hi + 1) -> s1 <= hi ->
    (forall n, In n D \/ In n (missing_seqs st) \/ In n E <-> In n D \/ (s1 <= n <= hi)) ->
    let '(st', ev) := rx_seq_run st rest in
    expected_seq st' = Some (fold_left Z.max rest hi + 1) /\
    (forall n, In n (D ++ rest) \/ In n (missing_seqs st') \/ In n (E ++ ev) <->
               In n (D ++ rest) \/ (s1 <= n <= fold_left Z.max rest hi)).
Proof.
  induction rest as [|s r IH]; intros st D E s1 hi Hexp Hle Hinv.
  - cbn. rewrite !app_nil_r. split; assumption.
  - cbn [rx_seq_run fold_left].
    destruct (rx_header_spec st s) as (Hexp1 & Hnot1 & Hun1 & _).
    unfold exp_of in *. rewrite Hexp in Hexp1, Hun1.
    destruct (rx_header st s) as [st1 ev1] eqn:Eh. cbn [fst snd] in *.
    specialize (IH st1 (D ++ [s]) (E ++ ev1) s1 (Z.max hi s)).
    destruct (rx_seq_run st1 r) as [st2 ev2] eqn:Er.
    rewrite <- !app_assoc in IH. cbn [app] in IH. apply IH.
    + rewrite Hexp1. f_equal. lia.
    + lia.
    + intros n. rewrite !in_app_iff. cbn [In].
      destruct (Z.eq_dec n s) as [->|Hne].
      * split; intros _; left; right; left; reflexivity.
      * assert (s <> n) by congruence.
        assert (Harith : (s1 <= n <= Z.max hi s) <-> (s1 <= n <= hi) \/ (hi + 1 <= n < s)) by lia.
        rewrite Harith. specialize (Hun1 n Hne). specialize (Hinv n). tauto.
Qed.

(** (C4, amended) Gap tracking is anchored at the first sequence
    received, not at 1: after [udp_receiver] has processed datagrams with
    sequence numbers [s1, ..., sk] (in that order), the delivered
    sequences, the missing set and the sequences evicted by the
    [MissingMax] cap together cover exactly the delivered sequences and the
    interval [[s1, max si]]. *)
Theorem gap_tracking_from_first_sequence s1 rest :
  let '(st, ev) := rx_seq_run rx_init (s1 :: rest) in
  forall n, In n (s1 :: rest) \/ In n (missing_seqs st) \/ In n ev <->
            In n (s1 :: rest) \/ (s1 <= n <= fold_left Z.max rest s1).
Proof.
  cbn [rx_seq_run].
  assert (Hfirst : rx_header rx_init s1 = ({| expected_seq := Some (s1 + 1); missing_seqs := [] |}, [])).
  { unfold rx_header. cbn. rewrite Z.ltb_irrefl. cbn. do 3 f_equal. lia. }
  rewrite Hfirst.
  pose proof (rx_seq_run_inv rest {| expected_seq := Some (s1 + 1); missing_seqs := [] |}
                [s1] [] s1 s1 eq_refl (Z.le_refl s1)) as H.
  destruct (rx_seq_run _ rest) as [st ev].
  cbn [app] in H. apply H.
  intros n. cbn. split; [tauto|].
  intros [H1|H1]; [tauto|]. left; left; lia.
Qed.

(** (C4, counterexample) After a single datagram with sequence
    3 reaches a fresh receiver, nothing was evicted and neither 1 nor 2 is
    delivered or missing, although both lie in [[1, 3]]. *)
Lemma gap_tracking_not_from_one :
  ~ (let '(st, ev) := rx_seq_run rx_init [3] in
     forall n, In n [3] \/ In n (missing_seqs st) \/ In n ev <->
               In n [3] \/ (1 <= n <= 3)).
Proof.
  replace (rx_seq_run rx_init [3])
    with (({| expected_seq := Some 4; missing_seqs := [] |} : rx_state), ([] : list Z))
    by (vm_compute; reflexivity).
  intros H. specialize (H 1). cbn in H.
  assert (Hr : 1 <= 1 <= 3) by lia.
  destruct (proj2 H (or_intror Hr)) as [[E|[]]|[[]|[]]]. discriminate.
Qed.

(** ** Sorted lists *)

Lemma SS_app_inv {A} (R : A -> A -> Prop) l1 l2 :
  StronglySorted R (l1 ++ l2) -> StronglySorted R l2.
Proof.
  induction l1 as [|x l1 IH]; intros H; [exact H|].
  apply StronglySorted_inv in H. apply IH, H.
Qed.

Lemma SS_app_inv_l {A} (R : A -> A -> Prop) l1 l2 :
  StronglySorted R (l1 ++ l2) -> StronglySorted R l1.
Proof.
  induction l1 as [|x l1 IH]; intros H; [constructor|].
  apply StronglySorted_inv in H as [H1 H2]. constructor; [apply IH, H1|].
  rewrite List.Forall_forall in H2 |- *. intros y Hy. apply H2, in_app_iff. left; exact Hy.
Qed.

Lemma SS_app_cons_inv {A} (R : A -> A -> Prop) l x :
  StronglySorted R (l ++ [x]) -> forall y, In y l -> R y x.
Proof.
  induction l as [|z l IH]; intros H y Hy; [destruct Hy|].
  apply StronglySorted_inv in H as [H1 H2]. destruct Hy as [->|Hy].
  - rewrite List.Forall_forall in H2. apply H2, in_app_iff. right; left; reflexivity.
  - apply IH; assumption.
Qed.

Lemma SS_snoc {A} (R : A -> A -> Prop) l x :
  StronglySorted R l -> (forall y, In y l -> R y x) -> StronglySorted R (l ++ [x]).
Proof.
  induction l as [|z l IH]; intros H Hx.
  - constructor; [constructor|constructor].
  - apply StronglySorted_inv in H as [H1 H2]. cbn. constructor.
    + apply IH; [exact H1|]. intros y Hy; apply Hx; right; exact Hy.
    + apply Forall_app; split; [exact H2|]. constructor; [apply Hx; left; reflexivity|constructor].
Qed.

(** ** The ring *)

Lemma sweep_suffix now buf : exists pre, buf = pre ++ sweep now buf.
Proof.
  induction buf as [|[[s b] t] r IH]; [exists []; reflexivity|].
  cbn. destruct (Z.ltb BUFFER_DURATION (now - t)).
  - destruct IH as [pre E]. exists ((s, b, t) :: pre). cbn. f_equal. exact E.
  - exists []. reflexivity.
Qed.

Lemma sweep_head now buf :
  match sweep now buf with
  | [] => True
  | (_, _, t) :: _ => now - t <= BUFFER_DURATION
  end.
Proof.
  induction buf as [|[[s b] t] r IH]; [exact I|].
  cbn. destruct (Z.ltb BUFFER_DURATION (now - t)) eqn:E; [exact IH|].
  apply Z.ltb_ge in E. exact E.
Qed.

Lemma sweep_incl now buf e : In e (sweep now buf) -> In e buf.
Proof.
  destruct (sweep_suffix now buf) as [pre E]. intros H. rewrite E. apply in_app_iff. right; exact H.
Qed.

Lemma run_sender_snoc trace b now :
  run_sender (trace ++ [(b, now)]) = emit (run_sender trace) b now.
Proof. unfold run_sender. rewrite fold_left_app. reflexivity. Qed.

(** Sequence numbers in the ring are strictly increasing and at most
    [seq_num]. *)
Lemma ring_seqs trace :
  StronglySorted Z.lt (map entry_seq (buffer (run_sender trace))) /\
  (forall e, In e (buffer (run_sender trace)) -> entry_seq e <= seq_num (run_sender trace)).
Proof.
  induction trace as [|[b now] trace IH] using rev_ind.
  - split; [constructor|intros e []].
  - rewrite run_sender_snoc. destruct IH as [Hs Hle].
    unfold emit; cbn [buffer seq_num].
    set (buf := buffer (run_sender trace)).
    set (n := seq_num (run_sender trace)).
    destruct (sweep_suffix now (buf ++ [(n + 1, b, now)])) as [pre E].
    assert (Hall : StronglySorted Z.lt (map entry_seq (buf ++ [(n + 1, b, now)]))).
    { rewrite map_app. apply SS_snoc; [exact Hs|].
      intros y Hy. apply in_map_iff in Hy as (e & <- & He). specialize (Hle e He). cbn. lia. }
    split.
    + rewrite E, map_app in Hall. eapply SS_app_inv; exact Hall.
    + intros e He. apply sweep_incl, in_app_iff in He. destruct He as [He|[<-|[]]].
      * specialize (Hle e He). lia.
      * cbn. lia.
Qed.

Lemma SS_lt_NoDup l : StronglySorted Z.lt l -> List.NoDup l.
Proof.
  induction l as [|x l IH]; intros H; [constructor|].
  apply StronglySorted_inv in H as [H1 H2]. constructor; [|apply IH, H1].
  intros Hx. rewrite List.Forall_forall in H2. specialize (H2 x Hx). lia.
Qed.

Lemma lookup_step_nokey S l acc :
  ~ In S (map entry_seq l) ->
  fold_left (fun acc '(s', b, _) => if Z.eqb s' S then Some b else acc) l acc = acc.
Proof.
  revert acc. induction l as [|[[s b] t] l IH]; intros acc Hn; [reflexivity|].
  cbn. assert (s <> S) as Hne by (intros ->; apply Hn; left; reflexivity).
  apply Z.eqb_neq in Hne. rewrite Hne. apply IH. intros H; apply Hn; right; exact H.
Qed.

Lemma buffer_lookup_unique buf S b t :
  List.NoDup (map entry_seq buf) -> In (S, b, t) buf -> buffer_lookup buf S = Some b.
Proof.
  unfold buffer_lookup. generalize (@None batch) as acc.
  induction buf as [|[[s b'] t'] l IH]; intros acc Hnd Hin; [destruct Hin|].
  cbn in Hnd. apply List.NoDup_cons_iff in Hnd as [Hn Hnd]. cbn.
  destruct Hin as [E|Hin].
  - injection E as -> -> ->. rewrite Z.eqb_refl. apply lookup_step_nokey. exact Hn.
  - apply IH; assumption.
Qed.

Lemma buffer_lookup_In buf S b :
  buffer_lookup buf S = Some b -> exists t, In (S, b, t) buf.
Proof.
  unfold buffer_lookup.
  assert (Hgen : forall acc, fold_left (fun acc '(s', b, _) => if Z.eqb s' S then Some b else acc) buf acc = Some b ->
                 acc = Some b \/ exists t, In (S, b, t) buf).
  { induction buf as [|[[s b'] t'] l IH]; intros acc H; [left; exact H|].
    cbn in H. apply IH in H. destruct H as [H|(t & Ht)].
    - destruct (Z.eqb s S) eqn:E; [|left; exact H].
      apply Z.eqb_eq in E. subst. injection H as ->. right. exists t'. left; reflexivity.
    - right. exists t. right; exact Ht. }
  intros H. destruct (Hgen None H) as [H'|H']; [discriminate|exact H'].
Qed.

Lemma handle_resend_In buf req S ms :
  In (S, ms) (handle_resend buf req) ->
  In S req /\ exists b, buffer_lookup buf S = Some b /\ ms = map to_wire b.
Proof.
  unfold handle_resend. rewrite in_flat_map. intros (s & Hs & Hin).
  destruct (buffer_lookup buf s) as [b|] eqn:E; [|destruct Hin].
  destruct Hin as [Hin|[]]. injection Hin as E1 E2. subst. split; [exact Hs|]. exists b. split; [exact E|reflexivity].
Qed.

Lemma handle_resend_found buf req S b :
  In S req -> buffer_lookup buf S = Some b -> In (S, map to_wire b) (handle_resend buf req).
Proof.
  intros Hs E. unfold handle_resend. apply in_flat_map. exists S. split; [exact Hs|].
  rewrite E. left; reflexivity.
Qed.

(** Insertion times in the ring are emission times of the session. *)
Lemma ring_times trace e :
  In e (buffer (run_sender trace)) -> In (snd e) (map snd trace).
Proof.
  induction trace as [|[b now] trace IH] using rev_ind; [intros []|].
  rewrite run_sender_snoc. unfold emit; cbn [buffer].
  intros He. apply sweep_incl, in_app_iff in He. rewrite map_app, in_app_iff.
  destruct He as [He|[<-|[]]]; [left; apply IH, He|right; left; reflexivity].
Qed.

Lemma ring_times_sorted trace :
  StronglySorted Z.le (map snd trace) ->
  StronglySorted Z.le (map snd (buffer (run_sender trace))).
Proof.
  induction trace as [|[b now] trace IH] using rev_ind; intros Hs; [constructor|].
  rewrite run_sender_snoc. unfold emit; cbn [buffer].
  rewrite map_app in Hs. cbn in Hs.
  set (buf := buffer (run_sender trace)).
  set (n := seq_num (run_sender trace)).
  destruct (sweep_suffix now (buf ++ [(n + 1, b, now)])) as [pre E].
  assert (Hall : StronglySorted Z.le (map snd (buf ++ [(n + 1, b, now)]))).
  { rewrite map_app. apply SS_snoc; [apply IH; eapply (SS_app_inv_l Z.le); exact Hs|].
    intros y Hy. apply in_map_iff in Hy as (e & <- & He).
    apply ring_times in He. eapply SS_app_cons_inv; [exact Hs|exact He]. }
  rewrite E, map_app in Hall. eapply SS_app_inv; exact Hall.
Qed.

(** ** Hex transport of payloads *)

Lemma hex_digit_ok k :
  (k < 16)%nat -> is_space (hex_digit k) = false /\ hex_val (hex_digit k) = Some k.
Proof.
  intros Hk.
  do 16 (destruct k as [|k]; [split; reflexivity|]). lia.
Qed.

Lemma bytes_hex_cons b r :
  bytes_hex (b :: r) =
  hex_digit (Nat.div (Byte.to_nat b) 16) :: hex_digit (Nat.modulo (Byte.to_nat b) 16) :: bytes_hex r.
Proof. reflexivity. Qed.

(** [bytes.fromhex(d.hex()) == d]. *)
Lemma fromhex_bytes_hex d : fromhex (bytes_hex d) = Some d.
Proof.
  induction d as [|b r IH]; [reflexivity|].
  rewrite bytes_hex_cons.
  pose proof (Byte.to_nat_bounded b) as Hb.
  set (n := Byte.to_nat b) in *.
  pose proof (Nat.div_mod_eq n 16) as Hdm.
  pose proof (Nat.mod_upper_bound n 16 ltac:(lia)) as Hm.
  assert (Hq : (n / 16 < 16)%nat) by lia.
  destruct (hex_digit_ok (n / 16) Hq) as [S1 V1].
  destruct (hex_digit_ok (n mod 16) Hm) as [_ V2].
  cbn [fromhex]. rewrite S1, V1, V2, IH.
  replace (n / 16 * 16 + n mod 16)%nat with n by lia.
  unfold n. rewrite Byte.of_to_nat. reflexivity.
Qed.

Section Recovery.

Variable to_millis : double -> option Z.

Lemma decode_wire_to_wire b :
  decode_wire to_millis (map to_wire b) = mapM (to_pub to_millis) b.
Proof.
  induction b as [|m r IH]; [reflexivity|].
  rewrite mapM_cons_eq. cbn [map decode_wire].
  change (w_d (to_wire m)) with (bytes_hex (data m)).
  change (w_t (to_wire m)) with (timestamp m).
  change (w_id (to_wire m)) with (can_id m).
  rewrite fromhex_bytes_hex, IH.
  destruct (to_pub to_millis m) as [p|] eqn:P; unfold to_pub in P;
    destruct (to_millis (timestamp m)); try discriminate; [|reflexivity].
  injection P as <-. destruct (mapM (to_pub to_millis) r); reflexivity.
Qed.

Lemma mapM_to_pub_Some b :
  (forall m, In m b -> to_millis (timestamp m) <> None) ->
  exists P, mapM (to_pub to_millis) b = Some P.
Proof.
  intros H. destruct (mapM (to_pub to_millis) b) as [P|] eqn:M; [exists P; reflexivity|].
  apply mapM_None_iff in M as (m & Hm & Hn). apply to_pub_None in Hn.
  exfalso. exact (H m Hm Hn).
Qed.

Lemma apply_resends_missing missing resp :
  (forall s ms, In (s, ms) resp -> decode_wire to_millis ms <> None) ->
  forall x, In x (fst (apply_resends to_millis missing resp)) <->
            In x missing /\ ~ In x (map fst resp).
Proof.
  revert missing. induction resp as [|[s ms] r IH]; intros missing Hok x.
  - cbn. tauto.
  - assert (Hr : forall s' ms', In (s', ms') r -> decode_wire to_millis ms' <> None)
      by (intros s' ms' H; apply (Hok s' ms'); right; exact H).
    cbn [apply_resends map fst]. destruct (zmem s missing) eqn:Zs.
    + destruct (decode_wire to_millis ms) as [ps|] eqn:D.
      2:{ exfalso. apply (Hok s ms); [left; reflexivity|exact D]. }
      destruct (apply_resends to_millis (set_remove s missing) r) as [m' out] eqn:A.
      cbn [fst]. specialize (IH (set_remove s missing) Hr x). rewrite A in IH. cbn [fst] in IH.
      rewrite IH, set_remove_In. cbn. intuition congruence.
    + apply zmem_false in Zs. rewrite IH by exact Hr. cbn.
      split; [|tauto]. intros [H1 H2]. split; [exact H1|]. intros [->|H]; [contradiction|tauto].
Qed.

Lemma apply_resends_publish missing resp S ms P :
  (forall s ms, In (s, ms) resp -> decode_wire to_millis ms <> None) ->
  (forall ms', In (S, ms') resp -> decode_wire to_millis ms' = Some P) ->
  In S missing -> In (S, ms) resp ->
  In P (snd (apply_resends to_millis missing resp)).
Proof.
  revert missing. induction resp as [|[s ms0] r IH]; intros missing Hok HP HS Hin; [destruct Hin|].
  assert (Hr : forall s' ms', In (s', ms') r -> decode_wire to_millis ms' <> None)
    by (intros s' ms' H; apply (Hok s' ms'); right; exact H).
  assert (HPr : forall ms', In (S, ms') r -> decode_wire to_millis ms' = Some P)
    by (intros ms' H; apply HP; right; exact H).
  cbn [apply_resends]. destruct (Z.eq_dec s S) as [->|Hne].
  - assert (zmem S missing = true) as -> by (apply zmem_In; exact HS).
    rewrite (HP ms0) by (left; reflexivity).
    destruct (apply_resends to_millis (set_remove S missing) r). left; reflexivity.
  - destruct Hin as [E|Hin]; [injection E as E _; congruence|].
    destruct (zmem s missing).
    + destruct (decode_wire to_millis ms0) as [ps|] eqn:D.
      2:{ exfalso. apply (Hok s ms0); [left; reflexivity|exact D]. }
      pose proof (IH (set_remove s missing) Hr HPr) as IH'.
      destruct (apply_resends to_millis (set_remove s missing) r) as [m' out].
      right. apply IH'; [apply set_remove_In; split; [exact HS|congruence]|exact Hin].
    + apply IH; assumption.
Qed.

Lemma handle_resend_decodes buf req s ms :
  In (s, ms) (handle_resend buf req) ->
  (forall m, In m ms -> to_millis (w_t m) <> None) ->
  decode_wire to_millis ms <> None.
Proof.
  intros H Ht. apply handle_resend_In in H as (_ & b & _ & ->).
  destruct (mapM_to_pub_Some b) as [P HP].
  - intros m Hm Hn. apply (Ht (to_wire m)); [apply in_map, Hm|exact Hn].
  - rewrite decode_wire_to_wire, HP. discriminate.
Qed.

Lemma json_response_nonempty (float_repr : double -> list ascii) resp :
  (1 <= length (json_response float_repr resp))%nat.
Proof. unfold json_response, json_array. cbn. lia. Qed.

(** When the whole request reaches the car and the whole response fits
    in the base's read, the cycle applies the response. *)
Lemma reporter_cycle_complete (float_repr : double -> list ascii) missing missing' buf n_req n_resp :
  let req := resend_request missing in
  let resp := handle_resend buf req in
  (length (json_request req) <= Nat.min 1024 n_req)%nat ->
  (length (json_response float_repr resp) <= Nat.min 65536 n_resp)%nat ->
  reporter_cycle to_millis float_repr missing missing' buf n_req n_resp =
  apply_resends to_millis missing' resp.
Proof.
  cbn zeta. intros Hreq Hresp. unfold reporter_cycle.
  apply Nat.leb_le in Hreq. rewrite Hreq.
  pose proof (json_response_nonempty float_repr (handle_resend buf (resend_request missing))) as Hne.
  set (J := json_response float_repr (handle_resend buf (resend_request missing))) in *.
  rewrite length_firstn, length_app. cbn [length].
  set (a := Nat.min 65536 n_resp) in *. clearbody a.
  destruct (Nat.eqb (Nat.min a (length J + 1)) 0) eqn:E0; [apply Nat.eqb_eq in E0; lia|].
  replace (Nat.leb (length J) (Nat.min a (length J + 1))) with true
    by (symmetry; apply Nat.leb_le; lia).
  reflexivity.
Qed.

End Recovery.

(** Right after an emission at [tau] (times non-decreasing), every ring
    entry was inserted at most [BUFFER_DURATION] before [tau]. *)
Lemma ring_age_after_emission trace b0 tau e :
  StronglySorted Z.le (map snd (trace ++ [(b0, tau)])) ->
  In e (buffer (run_sender (trace ++ [(b0, tau)]))) ->
  tau - snd e <= BUFFER_DURATION.
Proof.
  intros Hs He.
  pose proof (ring_times_sorted _ Hs) as Hsorted.
  revert He Hsorted. rewrite run_sender_snoc. unfold emit; cbn [buffer].
  set (L := sweep tau _). pose proof (sweep_head tau (buffer (run_sender trace) ++
            [(seq_num (run_sender trace) + 1, b0, tau)])) as Hh. fold L in Hh.
  destruct L as [|[[s0 c0] t0] L']; [intros []|].
  intros He Hsorted. cbn in Hsorted. apply StronglySorted_inv in Hsorted as [_ Hf].
  destruct He as [<-|He]; [exact Hh|].
  rewrite List.Forall_forall in Hf. specialize (Hf (snd e) (in_map snd _ _ He)). cbn in Hf. lia.
Qed.

(** The ring's sequence numbers are distinct. *)
Lemma ring_NoDup trace : List.NoDup (map entry_seq (buffer (run_sender trace))).
Proof. apply SS_lt_NoDup, (proj1 (ring_seqs trace)). Qed.

(** C3 (amended).  [handle_resend] reads the ring without sweeping it, and
    the ring is swept only when a batch is emitted.  The age bound holds
    relative to the time [tau] of the latest emission: with emission times
    non-decreasing, every batch a resend request obtains from the ring as it
    stands after that emission was inserted at some [t] with
    [tau - t <= BUFFER_DURATION].  At a later time [T] before the next
    emission the age [T - t] is thus bounded by [BUFFER_DURATION + (T - tau)]
    and by nothing else. *)
Theorem resend_age_bound_since_last_emission trace b0 tau req S ms :
  StronglySorted Z.le (map snd (trace ++ [(b0, tau)])) ->
  In (S, ms) (handle_resend (buffer (run_sender (trace ++ [(b0, tau)]))) req) ->
  exists b t, In (S, b, t) (buffer (run_sender (trace ++ [(b0, tau)]))) /\
              ms = map to_wire b /\ tau - t <= BUFFER_DURATION.
Proof.
  intros Hs Hin.
  apply handle_resend_In in Hin as (_ & b & Hlk & ->).
  apply buffer_lookup_In in Hlk as (t & Ht).
  exists b, t. split; [exact Ht|]. split; [reflexivity|].
  exact (ring_age_after_emission trace b0 tau (S, b, t) Hs Ht).
Qed.

(** Batches emitted at 0 ms and 30000 ms, then one at 70000 ms: that
    emission sweeps the first entry, and a request for sequences 1 and 2
    obtains batch 2, inserted 40000 ms before. *)
Lemma resend_age_bound_since_last_emission_witness :
  exists b t,
    In (2, b, t) (buffer (run_sender ([(Samples.batch_0x123, 0); (Samples.batch_0x123, 30000)] ++
                                      [(Samples.batch_0x123, 70000)]))) /\
    map to_wire Samples.batch_0x123 = map to_wire b /\ 70000 - t <= BUFFER_DURATION.
Proof.
  apply (resend_age_bound_since_last_emission
           [(Samples.batch_0x123, 0); (Samples.batch_0x123, 30000)] Samples.batch_0x123 70000
           [1; 2] 2 (map to_wire Samples.batch_0x123)).
  - cbn. repeat constructor; cbn; lia.
  - vm_compute. left. reflexivity.
Defined.

(** C3 (counterexample).  One batch emitted at time 0 ms and no emission
    afterwards: the ring still holds it, and a resend request for sequence 1
    served at T = 1000000 ms (the server does not read the clock) returns
    it, although T - t exceeds BUFFER_DURATION plus one batch interval. *)
Lemma resend_returns_batch_older_than_bound :
  In (1, map to_wire Samples.batch_0x123)
     (handle_resend (buffer (run_sender [(Samples.batch_0x123, 0)])) [1]) /\
  (forall b t, In (1, b, t) (buffer (run_sender [(Samples.batch_0x123, 0)])) ->
               1000000 - t > BUFFER_DURATION + BATCH_TIMEOUT).
Proof.
  split.
  - vm_compute. left. reflexivity.
  - intros b t H.
    replace (buffer (run_sender [(Samples.batch_0x123, 0)]))
      with [(1, Samples.batch_0x123, 0)] in H by (vm_compute; reflexivity).
    destruct H as [E|[]]. injection E as _ Et. subst t.
    unfold BUFFER_DURATION, BATCH_TIMEOUT. lia.
Qed.

(** C5 (amended).  Let [S] be a sequence whose batch [b] is in the
    sender's ring (after any session [trace]) and which the request of
    [missing_reporter], built from the missing set [missing], names.
    Suppose the whole request reaches the car's [read(1024)], the whole
    response fits in the base's [read(65536)], and every timestamp in the
    response converts with [int(t * 1000)].  Then the response holds [S]
    with the hex-encoded frames of [b]; every entry for [S] decodes (via
    [bytes.fromhex]) to exactly the records the receiver publishes for [b];
    those records are injected when [S] is still missing (in [missing'],
    the set when the response is processed); and the new missing set is
    [missing'] minus the sequences the response contains. *)
Theorem resend_recovery_sound (to_millis : double -> option Z) (float_repr : double -> list ascii)
    trace missing missing' S b t n_req n_resp :
  let buf := buffer (run_sender trace) in
  let req := resend_request missing in
  let resp := handle_resend buf req in
  In (S, b, t) buf -> In S req ->
  (length (json_request req) <= Nat.min 1024 n_req)%nat ->
  (length (json_response float_repr resp) <= Nat.min 65536 n_resp)%nat ->
  (forall s ms m, In (s, ms) resp -> In m ms -> to_millis (w_t m) <> None) ->
  let out := reporter_cycle to_millis float_repr missing missing' buf n_req n_resp in
  In (S, map to_wire b) resp /\
  (forall ms, In (S, ms) resp ->
     ms = map to_wire b /\ decode_wire to_millis ms = mapM (to_pub to_millis) b) /\
  (exists P, mapM (to_pub to_millis) b = Some P /\ (In S missing' -> In P (snd out))) /\
  (forall x, In x (fst out) <-> In x missing' /\ ~ In x (map fst resp)).
Proof.
  intros buf req resp Hin Hreq Hlq Hlr Ht out.
  assert (Hout : out = apply_resends to_millis missing' resp)
    by (apply reporter_cycle_complete; assumption).
  rewrite Hout. clear out Hout.
  assert (Hlk : buffer_lookup buf S = Some b)
    by (apply (buffer_lookup_unique _ _ _ t); [apply ring_NoDup|exact Hin]).
  assert (Hfound : In (S, map to_wire b) resp) by (apply handle_resend_found; assumption).
  assert (Hms : forall ms, In (S, ms) resp ->
            ms = map to_wire b /\ decode_wire to_millis ms = mapM (to_pub to_millis) b).
  { intros ms H. apply handle_resend_In in H as (_ & b' & Hb' & ->).
    rewrite Hlk in Hb'. injection Hb' as <-. split; [reflexivity|apply decode_wire_to_wire]. }
  assert (Hok : forall s ms, In (s, ms) resp -> decode_wire to_millis ms <> None).
  { intros s ms H. apply (handle_resend_decodes to_millis buf req s ms H).
    intros m Hm. exact (Ht s ms m H Hm). }
  destruct (mapM_to_pub_Some to_millis b) as [P HP].
  { intros m Hm. apply (Ht S (map to_wire b) (to_wire m) Hfound (in_map _ _ _ Hm)). }
  split; [exact Hfound|].
  split; [exact Hms|].
  split.
  - exists P. split; [exact HP|]. intros HS.
    apply (apply_resends_publish to_millis missing' resp S (map to_wire b)); try assumption.
    intros ms' H. rewrite (proj2 (Hms ms' H)). exact HP.
  - apply apply_resends_missing. exact Hok.
Qed.

Lemma resend_recovery_sound_witness :
  let buf := buffer (run_sender [(Samples.batch_0x123, 0)]) in
  let resp := handle_resend buf (resend_request [1]) in
  let out := reporter_cycle py_int_times_1000 py_float_repr [1] [1] buf 1024 65536 in
  In (1, map to_wire Samples.batch_0x123) resp /\
  (forall ms, In (1, ms) resp ->
     ms = map to_wire Samples.batch_0x123 /\
     decode_wire py_int_times_1000 ms = mapM (to_pub py_int_times_1000) Samples.batch_0x123) /\
  (exists P, mapM (to_pub py_int_times_1000) Samples.batch_0x123 = Some P /\
             (In 1 [1] -> In P (snd out))) /\
  (forall x, In x (fst out) <-> In x [1] /\ ~ In x (map fst resp)).
Proof.
  apply (resend_recovery_sound py_int_times_1000 py_float_repr [(Samples.batch_0x123, 0)]
           [1] [1] 1 Samples.batch_0x123 0 1024 65536).
  - vm_compute. left. reflexivity.
  - vm_compute. left. reflexivity.
  - apply Nat.leb_le. vm_compute. reflexivity.
  - apply Nat.leb_le. vm_compute. reflexivity.
  - intros s ms m H Hm. vm_compute in H. destruct H as [E|[]]. injection E as <- <-.
    destruct Hm as [<-|[]]. vm_compute. discriminate.
Defined.

(** The session of the recovery counterexample: 100 batches of 20
    frames, emitted 1 ms apart. *)
Definition big_trace : list (batch * Z) :=
  map (fun i => (repeat Samples.msg_0x123 20, Z.of_nat i)) (seq 0 100).

Definition missing_1_100 : list Z := map Z.of_nat (seq 1 100).

(** C5 (counterexample).  All 100 batches are in the ring and missing,
    and the request for them fits in 1024 bytes; batch 1 is in the
    response with frames whose timestamps convert.  But the response text
    is longer than 65536 bytes, so [reader.read(65536)] returns a strict
    prefix of it and [json.loads] raises: nothing is recovered and
    sequence 1 stays missing although the response contains it. *)
Lemma resend_over_read_limit_not_recovered :
  let buf := buffer (run_sender big_trace) in
  let req := resend_request missing_1_100 in
  let resp := handle_resend buf req in
  In (1, repeat Samples.msg_0x123 20, 0) buf /\
  In 1 req /\ In 1 missing_1_100 /\
  In (1, map to_wire (repeat Samples.msg_0x123 20)) resp /\
  mapM (to_pub py_int_times_1000) (repeat Samples.msg_0x123 20) <> None /\
  (length (json_request req) <= 1024)%nat /\
  (65536 < length (json_response py_float_repr resp))%nat /\
  reporter_cycle py_int_times_1000 py_float_repr missing_1_100 missing_1_100 buf 1024 70000 =
    (missing_1_100, []).
Proof.
  cbv zeta.
  split; [vm_compute; left; reflexivity|].
  split; [vm_compute; left; reflexivity|].
  split; [vm_compute; left; reflexivity|].
  split; [vm_compute; left; reflexivity|].
  split; [vm_compute; discriminate|].
  split; [apply Nat.leb_le; vm_compute; reflexivity|].
  split; [apply Nat.ltb_lt; vm_compute; reflexivity|].
  vm_compute. reflexivity.
Qed.

End TelemetryFacts.

(* ===================================================================== *)
(** * Proofs about the PECAN viewer *)
(* ===================================================================== *)

Module PecanFacts.
Import Pecan.

(** ** Decoder *)

(** C6 (amended).  For an integer CAN id (the only kind [POST /api/import]
    passes), [decode_can_message] returns exactly one record, carrying the
    id and the payload bytes: with no database, ["Raw"], no signals and the
    error ["No DBC file loaded"]; with a database and an unknown id,
    ["Unknown"], no signals and as error [str(KeyError(key))], the
    dictionary key cantools looks up, in decimal (the id masked to 32 bits,
    with bit 31 set when that exceeds [0x7FF]); when the message's decoder fails, ["Unknown"], no signals and
    the failure text; otherwise the message name, its signals and no
    error. *)
Theorem decode_can_message_int_shape db z d :
  exists r, decode_can_message db (JInt z) d = Some r /\
    can_id r = JInt z /\ raw_data r = map byte_z d /\
    match db with
    | None => message_name r = "Raw" /\ signals r = [] /\ error r = Some "No DBC file loaded"
    | Some dbc =>
        match get_message_by_frame_id dbc z with
        | inl m =>
            match msg_decode m d with
            | inl sig => message_name r = msg_name m /\ signals r = sig /\ error r = None
            | inr e => message_name r = "Unknown" /\ signals r = [] /\ error r = Some e
            end
        | inr _ => message_name r = "Unknown" /\ signals r = [] /\
                   error r = Some (z_to_string (frame_id_key z))
        end
    end.
Proof.
  destruct db as [dbc|]; cbn.
  - destruct (get_message_by_frame_id dbc z) as [m|k] eqn:G.
    + destruct (msg_decode m d) as [sig|e]; eexists; repeat split.
    + unfold get_message_by_frame_id in G.
      destruct (find _ dbc) as [[? ?]|]; [discriminate|]. injection G as <-.
      eexists; repeat split.
  - eexists; repeat split.
Qed.

(** C6 (counterexample).  With a database holding only frame id 192, id
    291 (0x123) yields the record ["Unknown"] whose error is ["291"], the
    text of the [KeyError], not ["id not in database"]; for id 5000, an
    extended id, the error is the key ["2147488648"] (5000 with bit 31
    set). *)
Lemma unknown_id_error_is_key_text :
  decode_can_message (Some PecanSamples.db_vcu) (JInt 291) [] =
    Some {| can_id := JInt 291; message_name := "Unknown"; signals := [];
            raw_data := []; error := Some "291" |} /\
  "291" <> "id not in database" /\
  decode_can_message (Some PecanSamples.db_vcu) (JInt 5000) [] =
    Some {| can_id := JInt 5000; message_name := "Unknown"; signals := [];
            raw_data := []; error := Some "2147488648" |}.
Proof. split; [vm_compute; reflexivity|]. split; [discriminate|vm_compute; reflexivity]. Qed.

(** ** History bound *)

Lemma append_history_length h r :
  (length h <= MESSAGE_HISTORY_LIMIT)%nat ->
  (length (append_history h r) <= MESSAGE_HISTORY_LIMIT)%nat.
Proof.
  intros Hh. unfold append_history.
  assert (E : length (h ++ [r]) = S (length h)) by (rewrite length_app; cbn; lia).
  destruct (Nat.ltb_spec MESSAGE_HISTORY_LIMIT (length (h ++ [r]))) as [Hlt|Hge].
  - destruct (h ++ [r]) as [|x l]; cbn in *; lia.
  - exact Hge.
Qed.

(** C7.  A history within [MESSAGE_HISTORY_LIMIT] stays within it after any
    append: the bare append with eviction, one line of the pipe listener,
    and one [POST /api/import] request, whatever their input. *)
Theorem history_bound_preserved (local_offset : Z -> Z) (can_event : hist_rec -> string)
    db now0 now msg body h b :
  (length h <= MESSAGE_HISTORY_LIMIT)%nat ->
  (forall r, length (append_history h r) <= MESSAGE_HISTORY_LIMIT)%nat /\
  (length (fst (pipe_message local_offset can_event db now msg h b)) <= MESSAGE_HISTORY_LIMIT)%nat /\
  (length (snd (fst (import_can_message local_offset can_event db now0 now body h b)))
     <= MESSAGE_HISTORY_LIMIT)%nat.
Proof.
  intros Hh. split; [intros r; apply append_history_length, Hh|]. split.
  - unfold pipe_message. destruct (pipe_record local_offset db now msg) as [r|]; cbn;
      [apply append_history_length|]; exact Hh.
  - unfold import_can_message.
    destruct body as [| | | | |kv]; cbn; try exact Hh.
    destruct (match jget "time" kv with
              | Some tv => option_map (fun t => (t, true)) (time_us local_offset tv)
              | None => Some (wall local_offset now0, false) end) as [[ots aware]|];
      cbn; [|exact Hh].
    destruct (truthy (jget "id" kv) && truthy (jget "data" kv)); cbn; [|exact Hh].
    destruct (jget "id" kv) as [cs|]; [|exact Hh].
    destruct (jget "data" kv) as [rv|]; [|exact Hh].
    destruct (py_int0 cs) as [cid|]; [|exact Hh].
    destruct (py_bytes rv) as [d|]; [|exact Hh].
    destruct (decode_can_message db (JInt cid) d) as [r|]; cbn; [|exact Hh].
    apply append_history_length, Hh.
Qed.

(** A full history of 1000 entries: a pipe line and an import each store
    their record and evict the oldest entry, and the bound holds. *)
Lemma history_bound_preserved_witness :
  ((forall r, length (append_history (repeat PecanSamples.hrec 1000) r) <= MESSAGE_HISTORY_LIMIT)%nat /\
   (length (fst (pipe_message PecanSamples.utc PecanSamples.no_event None 0
                   PecanSamples.pipe_line (repeat PecanSamples.hrec 1000) broker_init))
      <= MESSAGE_HISTORY_LIMIT)%nat /\
   (length (snd (fst (import_can_message PecanSamples.utc PecanSamples.no_event None 0 0
                        PecanSamples.import_id_zero (repeat PecanSamples.hrec 1000) broker_init)))
      <= MESSAGE_HISTORY_LIMIT)%nat) /\
  (exists r, pipe_record PecanSamples.utc None 0 PecanSamples.pipe_line = Some r /\
             fst (pipe_message PecanSamples.utc PecanSamples.no_event None 0
                    PecanSamples.pipe_line (repeat PecanSamples.hrec 1000) broker_init) =
             repeat PecanSamples.hrec 999 ++ [r]) /\
  (exists e, snd (fst (import_can_message PecanSamples.utc PecanSamples.no_event None 0 0
                        PecanSamples.import_id_zero (repeat PecanSamples.hrec 1000) broker_init)) =
             repeat PecanSamples.hrec 999 ++ [e]).
Proof.
  split.
  - apply (history_bound_preserved PecanSamples.utc PecanSamples.no_event None 0 0
             PecanSamples.pipe_line PecanSamples.import_id_zero (repeat PecanSamples.hrec 1000)
             broker_init).
    rewrite repeat_length. unfold MESSAGE_HISTORY_LIMIT. lia.
  - split; eexists; [split|]; vm_compute; reflexivity.
Defined.

(** ** Broker *)

Lemma put_nowait_ne qs x h p : h <> x -> put_nowait qs x p !! h = qs !! h.
Proof.
  intros Hne. unfold put_nowait.
  destruct (qs !! x) as [q|]; [|reflexivity].
  destruct (Nat.ltb (length q) QUEUE_MAXSIZE); [|reflexivity].
  rewrite lookup_insert_ne; [reflexivity|congruence].
Qed.

Lemma put_nowait_same qs h p :
  put_nowait qs h p !! h =
  match qs !! h with
  | Some q => Some (if Nat.ltb (length q) QUEUE_MAXSIZE then q ++ [p] else q)
  | None => None
  end.
Proof.
  unfold put_nowait. destruct (qs !! h) as [q|] eqn:E; [|exact E].
  destruct (Nat.ltb (length q) QUEUE_MAXSIZE); [|exact E].
  simplify_map_eq. reflexivity.
Qed.

Lemma foldl_put_nowait l qs h p :
  NoDup l ->
  foldl (fun qs h => put_nowait qs h p) qs l !! h =
  if decide (h ∈ l) then
    match qs !! h with
    | Some q => Some (if Nat.ltb (length q) QUEUE_MAXSIZE then q ++ [p] else q)
    | None => None
    end
  else qs !! h.
Proof.
  revert qs. induction l as [|x l IH]; intros qs Hnd; cbn.
  - destruct (decide (h ∈ [])) as [Hin|_]; [set_solver|reflexivity].
  - apply NoDup_cons in Hnd as [Hx Hnd]. rewrite IH by exact Hnd.
    destruct (decide (h ∈ l)) as [Hl|Hl].
    + rewrite decide_True by set_solver.
      rewrite put_nowait_ne by (intros ->; contradiction). reflexivity.
    + destruct (decide (h = x)) as [->|Hne].
      * rewrite decide_True by set_solver. apply put_nowait_same.
      * rewrite decide_False by set_solver. apply put_nowait_ne, Hne.
Qed.

(** C8.  [sse_broadcast] keeps every subscription registered, appends the
    payload once to the queue of each registered subscription with fewer
    than [QUEUE_MAXSIZE] entries, leaves a full queue as it is, and touches
    no other queue. *)
Theorem sse_broadcast_isolation b p :
  sse_clients (sse_broadcast b p) = sse_clients b /\
  forall h, queues (sse_broadcast b p) !! h =
    if decide (h ∈ sse_clients b) then
      match queues b !! h with
      | Some q => Some (if Nat.ltb (length q) QUEUE_MAXSIZE then q ++ [p] else q)
      | None => None
      end
    else queues b !! h.
Proof.
  split; [reflexivity|]. intros h. cbn.
  rewrite foldl_put_nowait by apply NoDup_elements.
  destruct (decide (h ∈ elements (sse_clients b))) as [H|H];
    destruct (decide (h ∈ sse_clients b)) as [H'|H']; try reflexivity;
    exfalso; set_solver.
Qed.

(** ** Table query *)

Lemma py_slice_from_newest {A} (l : list A) t :
  0 < t ->
  py_slice_from l (- Z.min t (Z.of_nat (length l))) =
  drop (length l - Z.to_nat (Z.min t (Z.of_nat (length l)))) l.
Proof.
  intros Ht. unfold py_slice_from.
  destruct (Z.ltb_spec (- Z.min t (Z.of_nat (length l))) 0) as [Hlt|Hge].
  - apply (f_equal (fun k => drop k l)). lia.
  - assert (length l = 0)%nat by lia.
    destruct l; [rewrite !drop_nil; reflexivity|discriminate].
Qed.

Lemma update_table_at_most_100 local_offset messages now q rows :
  update_table local_offset messages now q = Some rows -> (length rows <= 100)%nat.
Proof.
  unfold update_table. destruct (window _ _ _ _ _) as [l|]; [|discriminate].
  intros E. injection E as <-.
  set (l' := rev _). destruct (Nat.ltb_spec 100 (length l')); [rewrite length_take|]; lia.
Qed.

(** C9 (amended).  Whatever the mode, the callback shows at most 100
    records when it does not raise: the result is cut to the first 100,
    and it has no limit parameter.  In mode ["count"] with a time range
    that is not negative ([0] and no value fall back to 600), it does not
    raise and the table holds the newest [min(time_range, len(history))]
    records, after the ID/name filter, newest first, cut to the first
    100. *)
Theorem update_table_count_newest local_offset messages now q :
  (forall rows, update_table local_offset messages now q = Some rows -> (length rows <= 100)%nat) /\
  (filter_mode q = Some "count" ->
   (forall z, time_range q = Some z -> 0 <= z) ->
   let m := Z.to_nat (Z.min (range_or_default (time_range q)) (Z.of_nat (length messages))) in
   let w := drop (length messages - m) messages in
   let w := if truthy_str (can_id_filter q) || truthy_str (name_filter q)
            then List.filter (id_name_ok (can_id_filter q) (name_filter q)) w else w in
   update_table local_offset messages now q = Some (take 100 (rev w))).
Proof.
  split; [intros rows; apply update_table_at_most_100|].
  intros Hm Ht m w w'.
  assert (Htr : 0 < range_or_default (time_range q)).
  { unfold range_or_default. destruct (time_range q) as [z|] eqn:E; [|lia].
    destruct (Z.eqb_spec z 0); [lia|]. specialize (Ht z eq_refl). lia. }
  unfold update_table. rewrite Hm. unfold mode_or_default, window.
  cbv beta zeta.
  change (String.eqb "count" "") with false.
  cbv iota beta.
  change (String.eqb "count" "all") with false.
  change (String.eqb "count" "count") with true.
  cbv iota beta.
  rewrite py_slice_from_newest by exact Htr. fold m. fold w. fold w'.
  destruct (Nat.ltb_spec 100 (length (rev w'))); [reflexivity|].
  rewrite take_ge by lia. reflexivity.
Qed.

Lemma update_table_count_newest_witness :
  let q := {| time_range := Some 2; can_id_filter := None; name_filter := None;
              filter_mode := Some "count" |} in
  let m := Z.to_nat (Z.min (range_or_default (time_range q))
                           (Z.of_nat (length [PecanSamples.hrec; PecanSamples.hrec; PecanSamples.hrec]))) in
  let w := drop (length [PecanSamples.hrec; PecanSamples.hrec; PecanSamples.hrec] - m)
                [PecanSamples.hrec; PecanSamples.hrec; PecanSamples.hrec] in
  let w := if truthy_str (can_id_filter q) || truthy_str (name_filter q)
           then List.filter (id_name_ok (can_id_filter q) (name_filter q)) w else w in
  update_table PecanSamples.utc [PecanSamples.hrec; PecanSamples.hrec; PecanSamples.hrec] 0 q =
    Some (take 100 (rev w)).
Proof.
  apply (proj2 (update_table_count_newest PecanSamples.utc
           [PecanSamples.hrec; PecanSamples.hrec; PecanSamples.hrec] 0
           {| time_range := Some 2; can_id_filter := None; name_filter := None;
              filter_mode := Some "count" |})).
  - reflexivity.
  - intros z E. injection E as <-. lia.
Defined.

(** C9 (counterexample).  A time range of 0 in mode ["count"] over three
    entries shows all three: [time_range or 600] replaces the 0, so the
    table does not hold the newest [min(0, 3) = 0] records. *)
Lemma count_zero_range_shows_all :
  option_map (@length hist_rec)
    (update_table PecanSamples.utc [PecanSamples.hrec; PecanSamples.hrec; PecanSamples.hrec] 0
       {| time_range := Some 0; can_id_filter := None; name_filter := None;
          filter_mode := Some "count" |}) = Some 3%nat.
Proof. vm_compute. reflexivity. Qed.

(** ** Manual import *)

Lemma truthy_Some v : truthy v = true -> exists x, v = Some x.
Proof. destruct v as [x|]; [intros _; exists x; reflexivity|discriminate]. Qed.

(** C10 (amended).  For an object body whose ["time"] is absent or
    accepted by [fromtimestamp] and [astimezone], [POST /api/import]
    answers ["Invalid data"] exactly when the ["id"] or the ["data"] field
    is falsy (absent, null, false, 0, empty); a truthy request is never
    refused as invalid: it is imported, or answered ["Decoding failed"]
    when [int(id, 0)], [bytes(data)] or the decoder raises.  A truthy id
    that is not a string (a non-zero integer, [true], a list, an object)
    always gets ["Decoding failed"]: [int] with a base accepts only
    strings.  A ["time"] that the conversion rejects (out of the
    [datetime] range, or not a number) makes the route raise: HTTP 500. *)
Theorem import_invalid_data_iff (local_offset : Z -> Z) (can_event : hist_rec -> string)
    db now0 now kv h b :
  let st := fst (fst (import_can_message local_offset can_event db now0 now (JObj kv) h b)) in
  ((forall tv, jget "time" kv = Some tv -> time_us local_offset tv <> None) ->
   (st = InvalidData <-> truthy (jget "id" kv) && truthy (jget "data" kv) = false) /\
   (forall cs, jget "id" kv = Some cs -> truthy (Some cs) = true ->
      truthy (jget "data" kv) = true -> (forall s, cs <> JStr s) -> st = DecodingFailed)) /\
  (forall tv, jget "time" kv = Some tv -> time_us local_offset tv = None -> st = ServerError).
Proof.
  cbv zeta. unfold import_can_message. split.
  - intros Ht.
    assert (Hor : exists p, match jget "time" kv with
                  | Some tv => option_map (fun t => (t, true)) (time_us local_offset tv)
                  | None => Some (wall local_offset now0, false) end = Some p).
    { destruct (jget "time" kv) as [tv|]; [|eexists; reflexivity].
      destruct (time_us local_offset tv) as [t|] eqn:E; [eexists; reflexivity|].
      exfalso. exact (Ht tv eq_refl E). }
    destruct Hor as [[ots aware] ->]. clear Ht. split.
    + destruct (truthy (jget "id" kv) && truthy (jget "data" kv)) eqn:T; [|split; reflexivity].
      apply andb_true_iff in T as [T1 T2].
      apply truthy_Some in T1 as [cs ->]. apply truthy_Some in T2 as [rv ->].
      destruct (py_int0 cs); [destruct (py_bytes rv)|];
        [destruct (decode_can_message db (JInt _) _)| |]; cbn; split; discriminate.
    + intros cs Hcs Tc Td Hns. rewrite Hcs, Tc, Td. cbn.
      apply truthy_Some in Td as [rv ->].
      assert (py_int0 cs = None) as ->
        by (destruct cs; try reflexivity; exfalso; eapply Hns; reflexivity).
      reflexivity.
  - intros tv Ht Hn. rewrite Ht, Hn. reflexivity.
Qed.

(** An integer id 5 with a timestamp: not invalid, but a decoding
    failure. *)
Lemma import_invalid_data_iff_witness :
  let kv := [("id", JInt 5); ("data", JList [JInt 1]); ("time", JInt 0)] in
  let st := fst (fst (import_can_message PecanSamples.utc PecanSamples.no_event None 0 0
                        (JObj kv) [] broker_init)) in
  (st = InvalidData <-> truthy (jget "id" kv) && truthy (jget "data" kv) = false) /\
  (forall cs, jget "id" kv = Some cs -> truthy (Some cs) = true ->
     truthy (jget "data" kv) = true -> (forall s, cs <> JStr s) -> st = DecodingFailed).
Proof.
  apply (proj1 (import_invalid_data_iff PecanSamples.utc PecanSamples.no_event None 0 0
           [("id", JInt 5); ("data", JList [JInt 1]); ("time", JInt 0)] [] broker_init)).
  intros tv E. vm_compute in E. injection E as <-. vm_compute. discriminate.
Defined.

(** C10 (counterexample).  The body [{"id": "0", "data": [1]}] is not
    refused: the string ["0"] is truthy, [int("0", 0)] is 0, and a frame
    with CAN id 0 is stored with status 201. *)
Lemma import_can_id_zero_accepted :
  let '(st, h, _) := import_can_message PecanSamples.utc PecanSamples.no_event None 0 0
                       PecanSamples.import_id_zero [] broker_init in
  st = Created /\ status_code st = 201 /\ map (fun r => can_id (rec r)) h = [JInt 0].
Proof. vm_compute. repeat split. Qed.

End PecanFacts.

(* ===================================================================== *)
(** * Further properties of the telemetry node *)
(* ===================================================================== *)

Module TelemetryMore.
Import Telemetry TelemetryFacts.

(** ** Packing *)

Lemma be_snoc l x : be (l ++ [x]) = be l * 256 + Z.of_nat (Byte.to_nat x).
Proof. unfold be. rewrite fold_left_app. reflexivity. Qed.

Lemma byte_of_z_val z : 0 <= z < 256 -> Z.of_nat (Byte.to_nat (byte_of_z z)) = z.
Proof.
  intros Hz. unfold byte_of_z.
  destruct (Byte.of_nat (Z.to_nat z)) as [b|] eqn:E.
  - apply Byte.to_of_nat in E. lia.
  - apply Byte.of_nat_None_iff in E. lia.
Qed.

Lemma length_to_be w n : length (to_be w n) = w.
Proof.
  revert n. induction w as [|w IH]; intros n; [reflexivity|].
  cbn [to_be]. rewrite length_app, IH. cbn. lia.
Qed.

Lemma be_to_be w n : 0 <= n < 256 ^ Z.of_nat w -> be (to_be w n) = n.
Proof.
  revert n. induction w as [|w IH]; intros n Hn.
  - cbn in Hn. cbn. lia.
  - cbn [to_be]. rewrite be_snoc.
    rewrite Nat2Z.inj_succ, Z.pow_succ_r in Hn by lia.
    rewrite IH by (split; [apply Z.div_pos; lia|apply Z.div_lt_upper_bound; lia]).
    rewrite byte_of_z_val by (apply Z.mod_pos_bound; lia).
    pose proof (Z.div_mod n 256 ltac:(lia)). lia.
Qed.

Lemma pack_uint_Some w n bs :
  pack_uint w n = Some bs -> length bs = w /\ be bs = n /\ 0 <= n < 256 ^ Z.of_nat w.
Proof.
  unfold pack_uint. destruct ((0 <=? n) && (n <? 256 ^ Z.of_nat w)) eqn:E; [|discriminate].
  apply andb_true_iff in E as [E1 E2]. apply Z.leb_le in E1. apply Z.ltb_lt in E2.
  intros H. injection H as <-. split; [apply length_to_be|]. split; [apply be_to_be; lia|lia].
Qed.

Lemma length_pad8 bs : length (pad8 bs) = 8%nat.
Proof. unfold pad8. rewrite length_app, length_take, repeat_length. lia. Qed.

Lemma firstn_app_exact {A} (l k : list A) n : length l = n -> firstn n (l ++ k) = l.
Proof. intros <-. apply take_app_length. Qed.

Lemma skipn_app_exact {A} (l k : list A) n : length l = n -> skipn n (l ++ k) = k.
Proof. intros <-. apply drop_app_length. Qed.

Lemma unpack_fields ts idb pd :
  length ts = 8%nat -> length idb = 4%nat -> length pd = 8%nat ->
  unpack (ts ++ idb ++ pd) = {| timestamp := ts; can_id := be idb; data := pd |}.
Proof.
  intros H1 H2 H3. unfold unpack.
  rewrite firstn_app_exact by exact H1.
  rewrite skipn_app_exact by exact H1.
  rewrite firstn_app_exact by exact H2.
  replace 12%nat with (length (ts ++ idb)) by (rewrite length_app; lia).
  rewrite app_assoc, skipn_app_exact by reflexivity.
  rewrite (firstn_all2 pd) by lia. reflexivity.
Qed.

(** [CANMessage.pack] and [CANMessage.unpack] are inverse: packing a
    message with an 8-byte timestamp gives 20 bytes from which [unpack]
    recovers the timestamp, the id and the data padded or truncated to 8
    bytes; packing fails exactly when the id is outside the unsigned 32-bit
    range. *)
Theorem pack_unpack_roundtrip m :
  length (timestamp m) = 8%nat ->
  match pack m with
  | Some bs => length bs = 20%nat /\ unpack bs = normalize m
  | None => ~ (0 <= can_id m < 2 ^ 32)
  end.
Proof.
  intros Hts. unfold pack.
  destruct (pack_uint 4 (can_id m)) as [idb|] eqn:E.
  - apply pack_uint_Some in E as (Hl & Hbe & _).
    split; [rewrite !length_app, Hts, Hl, length_pad8; reflexivity|].
    rewrite unpack_fields by (try exact Hts; try exact Hl; apply length_pad8).
    rewrite Hbe. reflexivity.
  - unfold pack_uint in E. intros Hr.
    change (256 ^ Z.of_nat 4) with (2 ^ 32) in E.
    destruct (Z.leb_spec 0 (can_id m)); [|lia].
    destruct (Z.ltb_spec (can_id m) (2 ^ 32)); [discriminate|lia].
Qed.

Lemma pack_unpack_roundtrip_witness :
  length (timestamp Samples.msg_0x123) = 8%nat /\
  match pack Samples.msg_0x123 with
  | Some bs => length bs = 20%nat /\ unpack bs = normalize Samples.msg_0x123
  | None => ~ (0 <= can_id Samples.msg_0x123 < 2 ^ 32)
  end.
Proof.
  split; [reflexivity|].
  apply pack_unpack_roundtrip. reflexivity.
Defined.

Lemma mapM_pack_cons m r frames :
  mapM pack (m :: r) = Some frames ->
  exists f fs, frames = f :: fs /\ pack m = Some f /\ mapM pack r = Some fs.
Proof.
  cbn. destruct (pack m) as [f|]; [|discriminate]. cbn.
  destruct (mapM pack r) as [fs|]; [|discriminate]. cbn.
  intros H. injection H as <-. exists f, fs. split; [reflexivity|split; reflexivity].
Qed.

Lemma unpack_frames_packed b frames :
  Forall (fun m => length (timestamp m) = 8%nat) b ->
  mapM pack b = Some frames ->
  unpack_frames (length b) (concat frames) = map normalize b.
Proof.
  revert frames. induction b as [|m r IH]; intros frames Hts Hp.
  - reflexivity.
  - apply Forall_cons in Hts as [Hm Hr].
    apply mapM_pack_cons in Hp as (f & fs & -> & Hf & Hfs).
    pose proof (pack_unpack_roundtrip m Hm) as Hrt. rewrite Hf in Hrt.
    destruct Hrt as [Hl Hu].
    cbn [length unpack_frames concat].
    replace (Nat.ltb (length (f ++ concat fs)) 20) with false
      by (symmetry; apply Nat.ltb_ge; rewrite length_app; lia).
    rewrite firstn_app_exact by exact Hl. rewrite skipn_app_exact by exact Hl.
    rewrite Hu, (IH fs Hr Hfs). reflexivity.
Qed.

Lemma mapM_map_comp {A B C} (f : B -> option C) (g : A -> B) l :
  mapM f (map g l) = mapM (fun x => f (g x)) l.
Proof.
  induction l as [|x l IH]; [reflexivity|].
  rewrite !mapM_cons_eq. cbn [map]. rewrite mapM_cons_eq, IH. reflexivity.
Qed.

(** A datagram built by [udp_sender] for sequence [seq] and a batch whose
    timestamps are 8-byte doubles is accepted by [udp_receiver] as it was
    sent: the gap state takes sequence [seq], and every message of the
    batch is published, in order, with the fields [unpack] recovers; the
    iteration raises exactly when a timestamp of the batch does not
    convert. *)
Theorem sender_datagram_received (to_millis : double -> option Z) st seq b d :
  Forall (fun m => length (timestamp m) = 8%nat) b ->
  sender_payload seq b = Some d ->
  rx_next (udp_receive to_millis st d) = fst (rx_header st seq) /\
  rx_published (udp_receive to_millis st d) =
    match b with
    | [] => None
    | _ => mapM (fun m => to_pub to_millis (normalize m)) b
    end /\
  (rx_raised (udp_receive to_millis st d) = true <->
   exists m, In m b /\ to_millis (timestamp m) = None).
Proof.
  intros Hts Hd. unfold sender_payload in Hd.
  destruct (pack_uint 8 seq) as [sb|] eqn:Es; [|discriminate].
  destruct (pack_uint 2 (Z.of_nat (length b))) as [cb|] eqn:Ec; [|discriminate].
  destruct (mapM pack b) as [frames|] eqn:Ef; [|discriminate].
  injection Hd as <-.
  apply pack_uint_Some in Es as (Hsl & Hsb & _).
  apply pack_uint_Some in Ec as (Hcl & Hcb & Hcr).
  assert (Hlen : Nat.ltb (length (sb ++ cb ++ concat frames)) 10 = false).
  { apply Nat.ltb_ge. rewrite !length_app. lia. }
  assert (Hseq : be (firstn 8 (sb ++ cb ++ concat frames)) = seq)
    by (rewrite firstn_app_exact by exact Hsl; exact Hsb).
  assert (Hcount : be (firstn 2 (skipn 8 (sb ++ cb ++ concat frames))) = Z.of_nat (length b))
    by (rewrite skipn_app_exact, firstn_app_exact by assumption; exact Hcb).
  assert (Hrest : skipn 10 (sb ++ cb ++ concat frames) = concat frames).
  { rewrite app_assoc. apply skipn_app_exact. rewrite length_app. lia. }
  unfold udp_receive. rewrite Hlen, Hseq, Hcount, Hrest, Nat2Z.id.
  rewrite (unpack_frames_packed b frames Hts Ef), mapM_map_comp.
  destruct (rx_header st seq) as [st' ev].
  destruct (mapM (fun m => to_pub to_millis (normalize m)) b) as [l|] eqn:M;
    cbn [rx_next rx_published rx_raised fst]; (split; [reflexivity|]).
  - split.
    + destruct b as [|x b']; [cbn in M; injection M as <-; reflexivity|].
      apply mapM_length in M. destruct l; [discriminate|reflexivity].
    + split; [discriminate|]. intros (m & Hm & Hn). exfalso.
      assert (E : mapM (fun m => to_pub to_millis (normalize m)) b = None).
      { apply mapM_None_iff. exists m. split; [exact Hm|]. apply to_pub_None. exact Hn. }
      congruence.
  - split; [destruct b; [discriminate|reflexivity]|].
    split; [intros _|reflexivity].
    apply mapM_None_iff in M as (m & Hm & Hn). exists m. split; [exact Hm|].
    apply to_pub_None in Hn. exact Hn.
Qed.

Lemma sender_datagram_received_witness :
  Forall (fun m => length (timestamp m) = 8%nat) Samples.batch_0x123 /\
  sender_payload 1 Samples.batch_0x123 = Some Samples.dgram_seq1 /\
  rx_next (udp_receive py_int_times_1000 rx_init Samples.dgram_seq1) = fst (rx_header rx_init 1) /\
  rx_published (udp_receive py_int_times_1000 rx_init Samples.dgram_seq1) =
    mapM (fun m => to_pub py_int_times_1000 (normalize m)) Samples.batch_0x123 /\
  (rx_raised (udp_receive py_int_times_1000 rx_init Samples.dgram_seq1) = true <->
   exists m, In m Samples.batch_0x123 /\ py_int_times_1000 (timestamp m) = None).
Proof.
  assert (Hts : Forall (fun m => length (timestamp m) = 8%nat) Samples.batch_0x123)
    by (repeat constructor).
  assert (Hd : sender_payload 1 Samples.batch_0x123 = Some Samples.dgram_seq1)
    by (vm_compute; reflexivity).
  split; [exact Hts|]. split; [exact Hd|].
  exact (sender_datagram_received py_int_times_1000 rx_init 1 Samples.batch_0x123 _ Hts Hd).
Defined.

(** ** Sender ring *)

Lemma seq_num_run_sender trace : seq_num (run_sender trace) = Z.of_nat (length trace).
Proof.
  induction trace as [|[b now] trace IH] using rev_ind; [reflexivity|].
  rewrite run_sender_snoc. cbn. rewrite IH, length_app. cbn. lia.
Qed.

Lemma sweep_keeps_last now l x :
  now - snd x <= BUFFER_DURATION -> In x (sweep now (l ++ [x])).
Proof.
  intros Hx. induction l as [|[[s c] t] l IH].
  - destruct x as [[s c] t]. cbn in *.
    destruct (Z.ltb_spec BUFFER_DURATION (now - t)); [lia|left; reflexivity].
  - cbn [app sweep]. destruct (Z.ltb BUFFER_DURATION (now - t)); [exact IH|].
    right. apply in_app_iff. right. left. reflexivity.
Qed.

(** [udp_sender] numbers its batches 1, 2, 3, ...: after [n] emissions
    [seq_num] is [n], and right after the next emission, whatever the clock
    says, a resend lookup of sequence [n + 1] returns that batch. *)
Theorem emitted_batch_numbered_and_retrievable trace b now :
  seq_num (run_sender trace) = Z.of_nat (length trace) /\
  buffer_lookup (buffer (run_sender (trace ++ [(b, now)]))) (Z.of_nat (length trace) + 1) = Some b.
Proof.
  split; [apply seq_num_run_sender|].
  apply (buffer_lookup_unique _ _ _ now); [apply ring_NoDup|].
  rewrite run_sender_snoc. unfold emit. cbn [buffer seq_num].
  rewrite seq_num_run_sender. apply sweep_keeps_last. cbn. unfold BUFFER_DURATION. lia.
Qed.

Lemma drop_seq j a L : drop j (seq a L) = seq (a + j) (L - j).
Proof.
  revert a L. induction j as [|j IH]; intros a L.
  - rewrite Nat.add_0_r, Nat.sub_0_r. reflexivity.
  - destruct L as [|L]; [reflexivity|]. cbn. rewrite IH. f_equal. lia.
Qed.

Lemma map_drop_comm {A B} (f : A -> B) j l : map f (drop j l) = drop j (map f l).
Proof.
  revert l. induction j as [|j IH]; intros l; [reflexivity|].
  destruct l; [reflexivity|]. cbn. apply IH.
Qed.

Lemma sweep_map_drop now l : exists j, map entry_seq (sweep now l) = drop j (map entry_seq l).
Proof.
  destruct (sweep_suffix now l) as [pre E]. exists (length pre).
  rewrite E at 2. rewrite map_app, <- (length_map entry_seq pre), drop_app_length. reflexivity.
Qed.

(** The ring always holds consecutive sequence numbers ending at the last
    one emitted: after [n] emissions its entries carry [lo, lo + 1, ..., n]
    in order, for some [lo >= 1] (empty when [lo = n + 1]). *)
Theorem ring_holds_consecutive_sequences trace :
  exists lo, (1 <= lo <= S (length trace))%nat /\
    map entry_seq (buffer (run_sender trace)) = map Z.of_nat (seq lo (S (length trace) - lo)).
Proof.
  induction trace as [|[b now] trace IH] using rev_ind.
  - exists 1%nat. split; [lia|reflexivity].
  - destruct IH as (lo & Hlo & Heq).
    rewrite run_sender_snoc. unfold emit. cbn [buffer seq_num].
    rewrite seq_num_run_sender.
    set (l := buffer (run_sender trace) ++ [(Z.of_nat (length trace) + 1, b, now)]).
    assert (Hl : map entry_seq l = map Z.of_nat (seq lo (S (S (length trace)) - lo))).
    { unfold l. rewrite map_app, Heq.
      replace (S (S (length trace)) - lo)%nat with (S (S (length trace) - lo)) by lia.
      rewrite seq_S, map_app. cbn. f_equal. f_equal. unfold entry_seq. cbn. lia. }
    destruct (sweep_map_drop now l) as [j Hj].
    rewrite length_app. cbn [length]. rewrite Nat.add_1_r.
    destruct (Nat.le_gt_cases j (S (S (length trace)) - lo)) as [Hj'|Hj'].
    + exists (lo + j)%nat. split; [lia|].
      rewrite Hj, Hl, <- map_drop_comm, drop_seq. f_equal. f_equal. lia.
    + exists (S (S (length trace))). split; [lia|].
      rewrite Hj, Hl, <- map_drop_comm, drop_ge by (rewrite length_seq; lia).
      rewrite Nat.sub_diag. reflexivity.
Qed.

(** ** Resend request *)

(** The request of [missing_reporter] asks for the [min(100, |missing|)]
    highest missing sequences, in ascending order: each of them is missing,
    and every missing sequence left out is lower than every one asked
    for. *)
Theorem resend_request_newest missing :
  let req := resend_request missing in
  length req = Nat.min 100 (length missing) /\
  Sorted Z.le req /\
  (forall x, In x req -> In x missing) /\
  (forall x y, In x missing -> ~ In x req -> In y req -> x < y).
Proof.
  cbn zeta. unfold resend_request.
  set (l := merge_sort Z.le missing).
  assert (Hp : Permutation l missing) by apply merge_sort_Permutation.
  assert (Hs : StronglySorted Z.le l).
  { apply Sorted_StronglySorted; [exact Z.le_trans|]. apply Sorted_merge_sort. intros a b; lia. }
  assert (Hlen : length l = length missing) by (apply Permutation_length, Hp).
  assert (Hsplit : l = take (length l - 100) l ++ drop (length l - 100) l)
    by (symmetry; apply take_drop).
  split; [rewrite length_drop; lia|].
  split.
  - apply StronglySorted_Sorted. rewrite Hsplit in Hs. eapply SS_app_inv; exact Hs.
  - split.
    + intros x Hx. apply (Permutation_in x Hp). rewrite Hsplit. apply in_app_iff. right. exact Hx.
    + intros x y Hx Hnx Hy.
      apply (Permutation_in x (Permutation_sym Hp)) in Hx.
      rewrite Hsplit in Hx, Hs. apply in_app_iff in Hx as [Hx|Hx]; [|contradiction].
      assert (Hle : x <= y).
      { clear Hsplit. set (A := take _ l) in *. set (B := drop _ l) in *.
        induction A as [|a A IHA]; [destruct Hx|].
        apply StronglySorted_inv in Hs as [Hs1 Hs2].
        destruct Hx as [->|Hx].
        - rewrite List.Forall_forall in Hs2. apply Hs2, in_app_iff. right. exact Hy.
        - apply IHA; assumption. }
      assert (x <> y) by (intros ->; contradiction). lia.
Qed.

(** ** Receiver gap state *)

Lemma filter_length_le (f : Z -> bool) l : (length (List.filter f l) <= length l)%nat.
Proof. induction l as [|a l IH]; cbn; [lia|destruct (f a); cbn; lia]. Qed.

Lemma set_remove_length_lt x l : In x l -> (length (set_remove x l) < length l)%nat.
Proof.
  unfold set_remove. induction l as [|a l IH]; intros H; [destruct H|].
  cbn. destruct (Z.eqb_spec a x) as [->|Hne]; cbn.
  - pose proof (filter_length_le (fun y => negb (y =? x)) l). lia.
  - destruct H as [->|H]; [congruence|]. specialize (IH H). lia.
Qed.

Lemma set_remove_NoDup x l : List.NoDup l -> List.NoDup (set_remove x l).
Proof. intros H. apply List.NoDup_filter, H. Qed.

Lemma set_add_NoDup x l : List.NoDup l -> List.NoDup (set_add x l).
Proof.
  intros H. unfold set_add. destruct (zmem x l) eqn:E; [exact H|].
  apply zmem_false in E. constructor; assumption.
Qed.

Lemma set_add_length x l : (length (set_add x l) <= S (length l))%nat.
Proof. unfold set_add. destruct (zmem x l); cbn; lia. Qed.

Lemma add_gap_inv n s m :
  List.NoDup m -> (length m <= MISSING_MAX)%nat ->
  List.NoDup (fst (add_gap n s m)) /\ (length (fst (add_gap n s m)) <= MISSING_MAX)%nat.
Proof.
  revert s m. induction n as [|n IH]; intros s m Hnd Hlen; [split; assumption|].
  cbn [add_gap].
  set (m1 := set_add s m).
  assert (Hnd1 : List.NoDup m1) by (apply set_add_NoDup, Hnd).
  assert (Hl1 : (length m1 <= S (length m))%nat) by apply set_add_length.
  destruct (Nat.ltb_spec MISSING_MAX (length m1)) as [Hc|Hc].
  - assert (Hin : In (set_min m1) m1)
      by (apply set_min_In; intros E; rewrite E in Hc; cbn in Hc; unfold MISSING_MAX in Hc; lia).
    pose proof (set_remove_length_lt _ _ Hin) as Hlt.
    destruct (IH (s + 1) (set_remove (set_min m1) m1)) as [H1 H2];
      [apply set_remove_NoDup, Hnd1|lia|].
    destruct (add_gap n (s + 1) (set_remove (set_min m1) m1)) as [m3 ev'].
    split; assumption.
  - destruct (IH (s + 1) m1 Hnd1 Hc) as [H1 H2].
    destruct (add_gap n (s + 1) m1) as [m3 ev']. split; assumption.
Qed.

Lemma rx_header_inv st seq : rx_inv st -> rx_inv (fst (rx_header st seq)).
Proof.
  intros (Hlen & Hnd & Hlt).
  destruct (rx_header_spec st seq) as (Hexp & Hnot & Hun & _).
  cbn zeta in *.
  assert (Hm : List.NoDup (missing_seqs (fst (rx_header st seq))) /\
               (length (missing_seqs (fst (rx_header st seq))) <= MISSING_MAX)%nat).
  { unfold rx_header.
    destruct (match expected_seq st with None => seq | Some e => e end <? seq).
    - destruct (add_gap_inv (Z.to_nat (seq - match expected_seq st with None => seq | Some e => e end))
                  (match expected_seq st with None => seq | Some e => e end)
                  (missing_seqs st) Hnd Hlen) as [H1 H2].
      destruct (add_gap _ _ (missing_seqs st)) as [m1 ev]. cbn [fst] in *.
      cbn [missing_seqs fst]. destruct (zmem seq m1); [|split; assumption].
      split; [apply set_remove_NoDup, H1|].
      pose proof (filter_length_le (fun y => negb (y =? seq)) m1). unfold set_remove. lia.
    - cbn [missing_seqs fst]. destruct (zmem seq (missing_seqs st)); [|split; assumption].
      split; [apply set_remove_NoDup, Hnd|].
      pose proof (filter_length_le (fun y => negb (y =? seq)) (missing_seqs st)).
      unfold set_remove. lia. }
  destruct Hm as [Hnd' Hlen'].
  split; [exact Hlen'|]. split; [exact Hnd'|].
  intros x Hx. exists (Z.max (exp_of st seq) (seq + 1)). split; [exact Hexp|].
  assert (Hxs : x <> seq) by (intros ->; contradiction).
  destruct (proj1 (Hun x Hxs) (or_introl Hx)) as [Hold|Hnew]; [|lia].
  destruct (Hlt x Hold) as (e & He & Hxe). unfold exp_of. rewrite He. lia.
Qed.

Lemma rx_run_inv (to_millis : double -> option Z) st ds :
  rx_inv st -> rx_inv (fst (fst (rx_run to_millis st ds))).
Proof.
  revert st. induction ds as [|d ds IH]; intros st H; [exact H|].
  assert (Hn : rx_inv (rx_next (udp_receive to_millis st d))).
  { rewrite udp_receive_next.
    destruct (Nat.ltb (length d) 10); [exact H|apply rx_header_inv, H]. }
  cbn [rx_run]. destruct (rx_raised (udp_receive to_millis st d)); [exact Hn|].
  specialize (IH _ Hn).
  destruct (rx_run to_millis (rx_next (udp_receive to_millis st d)) ds) as [[st' out] dead].
  exact IH.
Qed.

(** Whatever datagrams [udp_receiver] processes from its initial state,
    its missing set never holds more than [MISSING_MAX] (1000) sequences,
    holds each at most once, and holds only sequences below the expected
    one. *)
Theorem receiver_missing_set_bounded (to_millis : double -> option Z) ds :
  let st := fst (fst (rx_run to_millis rx_init ds)) in
  (length (missing_seqs st) <= MISSING_MAX)%nat /\ List.NoDup (missing_seqs st) /\
  (forall x, In x (missing_seqs st) -> exists e, expected_seq st = Some e /\ x < e).
Proof.
  apply rx_run_inv. split; [cbn; unfold MISSING_MAX; lia|]. split; [constructor|intros x []].
Qed.

(** A late datagram (sequence below the expected one, e.g. out of order)
    changes only the missing set: its sequence leaves it, [expected_seq]
    stays, and nothing is evicted. *)
Theorem late_datagram_fills_gap (to_millis : double -> option Z) st e d :
  expected_seq st = Some e -> (10 <= length d)%nat -> be (firstn 8 d) < e ->
  rx_next (udp_receive to_millis st d) =
    {| expected_seq := Some e; missing_seqs := set_remove (be (firstn 8 d)) (missing_seqs st) |} /\
  rx_evicted (udp_receive to_millis st d) = [].
Proof.
  intros He Hl Hs.
  assert (Hlt : Nat.ltb (length d) 10 = false) by (apply Nat.ltb_ge; lia).
  set (seq := be (firstn 8 d)) in *.
  assert (Hh : rx_header st seq =
    ({| expected_seq := Some e; missing_seqs := set_remove seq (missing_seqs st) |}, [])).
  { unfold rx_header. rewrite He.
    replace (e <? seq) with false by (symmetry; apply Z.ltb_ge; lia).
    replace (Z.max e (seq + 1)) with e by lia.
    destruct (zmem seq (missing_seqs st)) eqn:Z1; cbn; [reflexivity|].
    apply zmem_false in Z1. rewrite set_remove_notin by exact Z1. reflexivity. }
  split.
  - rewrite udp_receive_next, Hlt. fold seq. rewrite Hh. reflexivity.
  - unfold udp_receive. rewrite Hlt. fold seq. rewrite Hh. destruct (mapM _ _); reflexivity.
Qed.

Lemma late_datagram_fills_gap_witness :
  rx_next (udp_receive py_int_times_1000 {| expected_seq := Some 5; missing_seqs := [1; 3] |}
             Samples.dgram_seq1) =
    {| expected_seq := Some 5; missing_seqs := set_remove (be (firstn 8 Samples.dgram_seq1)) [1; 3] |} /\
  rx_evicted (udp_receive py_int_times_1000 {| expected_seq := Some 5; missing_seqs := [1; 3] |}
                Samples.dgram_seq1) = [].
Proof.
  apply (late_datagram_fills_gap py_int_times_1000 {| expected_seq := Some 5; missing_seqs := [1; 3] |} 5).
  - reflexivity.
  - vm_compute. lia.
  - vm_compute. reflexivity.
Defined.

(** A datagram of 10 bytes or more holding a frame whose timestamp
    [int(t * 1000)] rejects (NaN or an infinity) ends [udp_receiver]: its
    header has already updated the gap state, nothing of it is published,
    and no later datagram is processed. *)
Theorem receiver_stops_at_unconvertible_timestamp (to_millis : double -> option Z) st d ds m :
  (10 <= length d)%nat ->
  In m (unpack_frames (Z.to_nat (be (firstn 2 (skipn 8 d)))) (skipn 10 d)) ->
  to_millis (timestamp m) = None ->
  rx_run to_millis st (d :: ds) = (fst (rx_header st (be (firstn 8 d))), [], true).
Proof.
  intros Hl Hm Ht.
  assert (Hlt : Nat.ltb (length d) 10 = false) by (apply Nat.ltb_ge; exact Hl).
  assert (HN : mapM (to_pub to_millis)
                 (unpack_frames (Z.to_nat (be (firstn 2 (skipn 8 d)))) (skipn 10 d)) = None).
  { apply mapM_None_iff. exists m. split; [exact Hm|]. apply to_pub_None, Ht. }
  destruct (udp_receive_frames to_millis st d Hlt) as [_ R]. cbn zeta in R. rewrite HN in R.
  cbn [rx_run]. rewrite R, udp_receive_next, Hlt. reflexivity.
Qed.

Lemma receiver_stops_at_unconvertible_timestamp_witness :
  rx_run py_int_times_1000 rx_init (Samples.dgram_nan :: [Samples.dgram_seq2]) =
    (fst (rx_header rx_init (be (firstn 8 Samples.dgram_nan))), [], true) /\
  fst (rx_header rx_init (be (firstn 8 Samples.dgram_nan))) =
    {| expected_seq := Some 2; missing_seqs := [] |}.
Proof.
  split; [|vm_compute; reflexivity].
  apply (receiver_stops_at_unconvertible_timestamp py_int_times_1000 rx_init Samples.dgram_nan
           [Samples.dgram_seq2] (unpack Samples.frame_nan)).
  - vm_compute. lia.
  - vm_compute. left. reflexivity.
  - vm_compute. reflexivity.
Defined.

End TelemetryMore.

(* ===================================================================== *)
(** * Further properties of the PECAN viewer *)
(* ===================================================================== *)

Module PecanMore.
Import Pecan PecanFacts.

(** ** History *)

Lemma append_history_step h r :
  (length h <= MESSAGE_HISTORY_LIMIT)%nat ->
  append_history h r = drop (length (h ++ [r]) - MESSAGE_HISTORY_LIMIT) (h ++ [r]).
Proof.
  intros Hh. unfold append_history. cbv zeta.
  rewrite length_app. cbn [length].
  destruct (Nat.ltb_spec MESSAGE_HISTORY_LIMIT (length h + 1)) as [Hlt|Hge].
  - replace (length h + 1 - MESSAGE_HISTORY_LIMIT)%nat with 1%nat by lia.
    destruct (h ++ [r]); reflexivity.
  - replace (length h + 1 - MESSAGE_HISTORY_LIMIT)%nat with 0%nat by lia.
    rewrite drop_0. reflexivity.
Qed.

(** Appending the records [rs] one after another to a history within the
    limit leaves exactly the newest [MESSAGE_HISTORY_LIMIT] (1000) entries
    of the history followed by [rs], oldest first: the oldest entries are
    evicted one per append once the limit is reached. *)
Theorem append_history_keeps_newest h rs :
  (length h <= MESSAGE_HISTORY_LIMIT)%nat ->
  foldl append_history h rs = drop (length (h ++ rs) - MESSAGE_HISTORY_LIMIT) (h ++ rs).
Proof.
  revert h. induction rs as [|r rs IH]; intros h Hh.
  - cbn [foldl]. rewrite app_nil_r. replace (length h - MESSAGE_HISTORY_LIMIT)%nat with 0%nat by lia.
    rewrite drop_0. reflexivity.
  - cbn [foldl]. rewrite append_history_step by exact Hh.
    rewrite length_app. cbn [length].
    set (k := (length h + 1 - MESSAGE_HISTORY_LIMIT)%nat).
    assert (Hk : (k <= length (h ++ [r]))%nat) by (unfold k; rewrite length_app; cbn; lia).
    rewrite IH by (rewrite length_drop, length_app; cbn; unfold k; lia).
    rewrite <- drop_app_le by exact Hk. rewrite drop_drop, <- app_assoc. cbn [app].
    f_equal. rewrite !length_app, length_drop, length_app. cbn [length]. unfold k. lia.
Qed.

Lemma append_history_keeps_newest_witness :
  (foldl append_history (repeat PecanSamples.hrec 999) (repeat PecanSamples.hrec 3) =
   drop (length (repeat PecanSamples.hrec 999 ++ repeat PecanSamples.hrec 3) - MESSAGE_HISTORY_LIMIT)
        (repeat PecanSamples.hrec 999 ++ repeat PecanSamples.hrec 3)) /\
  (length (repeat PecanSamples.hrec 999 ++ repeat PecanSamples.hrec 3) - MESSAGE_HISTORY_LIMIT = 2)%nat.
Proof.
  split.
  - apply append_history_keeps_newest. rewrite repeat_length. unfold MESSAGE_HISTORY_LIMIT. lia.
  - rewrite length_app, !repeat_length. unfold MESSAGE_HISTORY_LIMIT. reflexivity.
Defined.

(** ** Broker *)

Lemma broadcast_lookup b p h :
  queues (sse_broadcast b p) !! h =
    if decide (h ∈ sse_clients b) then
      match queues b !! h with
      | Some q => Some (if Nat.ltb (length q) QUEUE_MAXSIZE then q ++ [p] else q)
      | None => None
      end
    else queues b !! h.
Proof.
  cbn. rewrite foldl_put_nowait by apply NoDup_elements.
  destruct (decide (h ∈ elements (sse_clients b))) as [H|H];
    destruct (decide (h ∈ sse_clients b)) as [H'|H']; try reflexivity;
    exfalso; set_solver.
Qed.

(** A new subscription gets a handle no queue used before, is registered
    with an empty queue, leaves every other queue as it was, and its stream
    receives the next broadcast payload. *)
Theorem subscriber_receives_next_broadcast b p :
  let '(b1, h) := sse_subscribe b in
  (h ∉ dom (queues b)) /\ h ∈ sse_clients b1 /\ queues b1 !! h = Some [] /\
  (forall h', h' <> h -> queues b1 !! h' = queues b !! h') /\
  snd (sse_get (sse_broadcast b1 p) h) = Some p.
Proof.
  unfold sse_subscribe. set (h := fresh (dom (queues b))).
  assert (Hf : h ∉ dom (queues b)) by apply is_fresh.
  split; [exact Hf|]. split; [cbn; set_solver|].
  split; [cbn; apply lookup_insert_eq|].
  split; [intros h' Hne; cbn; apply lookup_insert_ne; congruence|].
  unfold sse_get. rewrite broadcast_lookup.
  rewrite decide_True by (cbn; set_solver). cbn [queues].
  rewrite lookup_insert_eq. reflexivity.
Qed.

(** A subscriber's queue receives broadcast payloads in order until it is
    full; the payloads that find it full are dropped, and the subscription
    stays registered. *)
Theorem broadcasts_queue_in_order_until_full b h q ps :
  h ∈ sse_clients b -> queues b !! h = Some q -> (length q <= QUEUE_MAXSIZE)%nat ->
  queues (foldl sse_broadcast b ps) !! h = Some (q ++ take (QUEUE_MAXSIZE - length q) ps) /\
  sse_clients (foldl sse_broadcast b ps) = sse_clients b.
Proof.
  revert b q. induction ps as [|p ps IH]; intros b q Hh Hq Hlen.
  - cbn [foldl]. rewrite take_nil, app_nil_r. split; [exact Hq|reflexivity].
  - cbn [foldl].
    assert (Hq' : queues (sse_broadcast b p) !! h =
                  Some (if Nat.ltb (length q) QUEUE_MAXSIZE then q ++ [p] else q))
      by (rewrite broadcast_lookup, decide_True by exact Hh; rewrite Hq; reflexivity).
    destruct (Nat.ltb_spec (length q) QUEUE_MAXSIZE) as [Hlt|Hge].
    + destruct (IH (sse_broadcast b p) (q ++ [p])) as [H1 H2];
        [exact Hh|exact Hq'|rewrite length_app; cbn; lia|].
      split; [|exact H2]. rewrite H1, length_app. cbn [length].
      replace (QUEUE_MAXSIZE - length q)%nat with (S (QUEUE_MAXSIZE - (length q + 1))) by lia.
      cbn [take]. rewrite <- app_assoc. reflexivity.
    + destruct (IH (sse_broadcast b p) q) as [H1 H2]; [exact Hh|exact Hq'|exact Hlen|].
      split; [|exact H2]. rewrite H1.
      replace (QUEUE_MAXSIZE - length q)%nat with 0%nat by lia. reflexivity.
Qed.

Lemma broadcasts_queue_in_order_until_full_witness :
  let b := fst (sse_subscribe broker_init) in
  let h := snd (sse_subscribe broker_init) in
  queues (foldl sse_broadcast b ["a"; "b"]) !! h = Some ([] ++ take (QUEUE_MAXSIZE - 0) ["a"; "b"]) /\
  sse_clients (foldl sse_broadcast b ["a"; "b"]) = sse_clients b.
Proof.
  apply (broadcasts_queue_in_order_until_full (fst (sse_subscribe broker_init))
           (snd (sse_subscribe broker_init)) [] ["a"; "b"]).
  - cbn. set_solver.
  - cbn. apply lookup_insert_eq.
  - cbn. lia.
Defined.

(** Once [_sse_unsubscribe] has removed a subscription, no broadcast
    touches its queue and it is never registered again by broadcasts. *)
Theorem unsubscribed_queue_untouched b h ps :
  queues (foldl sse_broadcast (sse_unsubscribe b h) ps) !! h = queues b !! h /\
  h ∉ sse_clients (foldl sse_broadcast (sse_unsubscribe b h) ps).
Proof.
  assert (G : forall b', h ∉ sse_clients b' ->
            queues (foldl sse_broadcast b' ps) !! h = queues b' !! h /\
            h ∉ sse_clients (foldl sse_broadcast b' ps)).
  { induction ps as [|p ps IH]; intros b' Hn; [split; [reflexivity|exact Hn]|].
    cbn [foldl]. destruct (IH (sse_broadcast b' p)) as [H1 H2]; [exact Hn|].
    split; [|exact H2]. rewrite H1, broadcast_lookup, decide_False by exact Hn. reflexivity. }
  destruct (G (sse_unsubscribe b h)) as [H1 H2]; [cbn; set_solver|].
  split; [exact H1|exact H2].
Qed.

(** ** Table query *)

Lemma sublist_rev_mono {A} (l1 l2 : list A) :
  sublist l1 l2 -> sublist (rev l1) (rev l2).
Proof.
  induction 1 as [|x l1 l2 _ IH|x l1 l2 _ IH]; cbn.
  - constructor.
  - apply sublist_app; [exact IH|reflexivity].
  - apply sublist_inserts_r, IH.
Qed.

Lemma sublist_list_filter {A} (f : A -> bool) l : sublist (List.filter f l) l.
Proof.
  induction l as [|x l IH]; cbn; [constructor|].
  destruct (f x); [apply sublist_skip, IH|apply sublist_cons, IH].
Qed.

Lemma window_sublist local_offset msgs now tr mode w :
  window local_offset msgs now tr mode = Some w -> sublist w msgs.
Proof.
  unfold window.
  destruct (String.eqb mode "all"); [intros E; injection E as <-; reflexivity|].
  destruct (String.eqb mode "count").
  { intros E; injection E as <-. unfold py_slice_from; cbv zeta; apply sublist_drop. }
  destruct (String.eqb mode "received_time").
  - destruct (_ && _); [intros E; injection E as <-; apply sublist_list_filter|discriminate].
  - destruct (_ && _); [|discriminate].
    destruct (forallb _ _); [intros E; injection E as <-; apply sublist_list_filter|discriminate].
Qed.

(** Whenever the callback does not raise, the table shows at most 100
    entries of the history, newest first in history order, and each of
    them passes the CAN-id and message-name filters. *)
Theorem update_table_rows local_offset messages now q rows :
  update_table local_offset messages now q = Some rows ->
  (length rows <= 100)%nat /\
  sublist rows (rev messages) /\
  (forall r, In r rows -> id_name_ok (can_id_filter q) (name_filter q) r = true).
Proof.
  unfold update_table.
  destruct (window local_offset messages now (range_or_default (time_range q))
              (mode_or_default (filter_mode q))) as [w|] eqn:Ew; [|discriminate].
  intros E. injection E as <-.
  apply window_sublist in Ew.
  set (f := if truthy_str (can_id_filter q) || truthy_str (name_filter q)
            then List.filter (id_name_ok (can_id_filter q) (name_filter q)) w else w).
  assert (Hf : sublist f messages).
  { unfold f. destruct (_ || _); [etrans; [apply sublist_list_filter|exact Ew]|exact Ew]. }
  assert (Hok : forall r, In r f -> id_name_ok (can_id_filter q) (name_filter q) r = true).
  { intros r Hr. unfold f in Hr. destruct (truthy_str (can_id_filter q) || truthy_str (name_filter q)) eqn:E.
    - apply filter_In in Hr. apply Hr.
    - apply orb_false_iff in E as [E1 E2]. unfold id_name_ok. rewrite E1, E2. reflexivity. }
  assert (Hres : exists k, (if Nat.ltb 100 (length (rev f)) then take 100 (rev f) else rev f) = take k (rev f)
                 /\ (length (take k (rev f)) <= 100)%nat).
  { destruct (Nat.ltb_spec 100 (length (rev f))).
    - exists 100%nat. split; [reflexivity|rewrite length_take; lia].
    - exists (length (rev f)). rewrite take_ge by lia. split; [reflexivity|lia]. }
  destruct Hres as (k & -> & Hk).
  split; [exact Hk|]. split.
  - etrans; [apply sublist_take|]. apply sublist_rev_mono, Hf.
  - intros r Hr. apply Hok. apply in_rev.
    apply (list_elem_of_In (take k (rev f)) r) in Hr.
    apply elem_of_take in Hr as (i & Hi & _).
    apply (list_elem_of_In (rev f) r). eapply list_elem_of_lookup_2. exact Hi.
Qed.

Lemma update_table_rows_witness :
  let q := {| time_range := None; can_id_filter := Some "192"; name_filter := None;
              filter_mode := Some "all" |} in
  update_table PecanSamples.utc [PecanSamples.hrec] 0 q = Some [PecanSamples.hrec] /\
  (length [PecanSamples.hrec] <= 100)%nat /\
  sublist [PecanSamples.hrec] (rev [PecanSamples.hrec]) /\
  (forall r, In r [PecanSamples.hrec] -> id_name_ok (can_id_filter q) (name_filter q) r = true).
Proof.
  cbv zeta. split; [vm_compute; reflexivity|].
  apply (update_table_rows PecanSamples.utc [PecanSamples.hrec] 0). vm_compute. reflexivity.
Defined.

(** ** Import *)

(** [POST /api/import] changes the history and the subscribers' queues
    only when it answers 201: then it appends one entry, whose
    ["received_timestamp"] is the wall-clock reading at [now], and
    broadcasts it.  Every error answer leaves both unchanged. *)
Theorem import_only_success_changes_state local_offset (can_event : hist_rec -> string)
    db now0 now body h b :
  let '(st, h', b') := import_can_message local_offset can_event db now0 now body h b in
  (st <> Created -> h' = h /\ b' = b) /\
  (st = Created -> exists e, h' = append_history h e /\ b' = sse_broadcast b (can_event e) /\
                             received_timestamp e = wall local_offset now).
Proof.
  unfold import_can_message.
  destruct body as [| | | | |kv]; try (split; [intros _; split; reflexivity|discriminate]).
  destruct (match jget "time" kv with
            | Some tv => option_map (fun t => (t, true)) (time_us local_offset tv)
            | None => Some (wall local_offset now0, false) end) as [[ots aware]|];
    [|split; [intros _; split; reflexivity|discriminate]].
  destruct (truthy (jget "id" kv) && truthy (jget "data" kv));
    [|split; [intros _; split; reflexivity|discriminate]].
  destruct (jget "id" kv) as [cs|]; [|split; [intros _; split; reflexivity|discriminate]].
  destruct (jget "data" kv) as [rv|]; [|split; [intros _; split; reflexivity|discriminate]].
  destruct (py_int0 cs) as [cid|]; [|split; [intros _; split; reflexivity|discriminate]].
  destruct (py_bytes rv) as [d|]; [|split; [intros _; split; reflexivity|discriminate]].
  destruct (decode_can_message db (JInt cid) d) as [r|];
    [|split; [intros _; split; reflexivity|discriminate]].
  split; [intros H; contradiction|intros _].
  eexists. split; [reflexivity|]. split; reflexivity.
Qed.

(** ** [int(str(z), 0)] *)

Lemma digit_step k r a :
  0 <= k < 10 -> digits_acc 10 (digit_char k :: r) a = digits_acc 10 r (a * 10 + k).
Proof.
  intros Hk.
  assert (k = 0 \/ k = 1 \/ k = 2 \/ k = 3 \/ k = 4 \/ k = 5 \/ k = 6 \/ k = 7 \/ k = 8 \/ k = 9)
    as Hc by lia.
  repeat destruct Hc as [->|Hc]; [reflexivity..|subst k; reflexivity].
Qed.

Lemma is_space_digit k : 0 <= k < 10 -> is_space (digit_char k) = false.
Proof.
  intros Hk.
  assert (k = 0 \/ k = 1 \/ k = 2 \/ k = 3 \/ k = 4 \/ k = 5 \/ k = 6 \/ k = 7 \/ k = 8 \/ k = 9)
    as Hc by lia.
  repeat destruct Hc as [->|Hc]; [reflexivity..|subst k; reflexivity].
Qed.

Lemma strip_left_id l : List.Forall (fun c => is_space c = false) l -> strip_left l = l.
Proof.
  intros H. destruct l as [|c r]; [reflexivity|].
  inversion H as [|? ? Hc _]; subst. cbn. rewrite Hc. reflexivity.
Qed.

Lemma strip_id l : List.Forall (fun c => is_space c = false) l -> strip l = l.
Proof.
  intros H. unfold strip. rewrite (strip_left_id l H).
  rewrite (strip_left_id (rev l)) by (apply List.Forall_rev; exact H).
  apply rev_involutive.
Qed.

(** [decimal_digits] with enough fuel writes a positive [n] as decimal
    digits, the first one non-zero, in front of [acc]. *)
Lemma decimal_digits_spec f n acc :
  0 < n < 10 ^ Z.of_nat f ->
  exists k0 ks,
    String.list_ascii_of_string (decimal_digits f n acc) =
      map digit_char (k0 :: ks) ++ String.list_ascii_of_string acc /\
    1 <= k0 <= 9 /\ List.Forall (fun k => 0 <= k < 10) ks /\
    10 ^ Z.of_nat (length ks) <= n /\
    forall r a, digits_acc 10 (map digit_char (k0 :: ks) ++ r) a =
                digits_acc 10 r (a * 10 ^ Z.of_nat (S (length ks)) + n).
Proof.
  revert n acc. induction f as [|f IH]; intros n acc Hn.
  - simpl in Hn. lia.
  - change (decimal_digits (S f) n acc) with
      (let acc' := String.String (digit_char (n mod 10)) acc in
       if n <? 10 then acc' else decimal_digits f (n / 10) acc').
    cbv zeta. destruct (Z.ltb_spec n 10) as [Hlt|Hge].
    + exists n, []. rewrite Z.mod_small by lia.
      split; [reflexivity|]. split; [lia|]. split; [constructor|].
      split; [cbn; lia|].
      intros r a. cbn [map app]. rewrite digit_step by lia.
      replace (10 ^ Z.of_nat (S (length (@nil Z)))) with 10 by reflexivity. reflexivity.
    + assert (Hm : 0 <= n mod 10 < 10) by (apply Z.mod_pos_bound; lia).
      rewrite Nat2Z.inj_succ, Z.pow_succ_r in Hn by lia.
      destruct (IH (n / 10) (String.String (digit_char (n mod 10)) acc))
        as (k0 & ks & E & Hk0 & Hks & Hlo & Hv).
      { split; [apply Z.div_str_pos; lia|]. apply Z.div_lt_upper_bound; lia. }
      exists k0, (ks ++ [n mod 10]).
      assert (Ecat : forall r, map digit_char (k0 :: ks ++ [n mod 10]) ++ r =
                               map digit_char (k0 :: ks) ++ digit_char (n mod 10) :: r)
        by (intros r; cbn [map app]; rewrite map_app, <- app_assoc; reflexivity).
      pose proof (Z.div_mod n 10 ltac:(lia)) as Hdm.
      split; [rewrite E, Ecat; reflexivity|].
      split; [exact Hk0|].
      split; [apply List.Forall_app; split; [exact Hks|constructor; [exact Hm|constructor]]|].
      split.
      { rewrite length_app. cbn [length].
        rewrite Nat2Z.inj_add, Z.pow_add_r by lia. cbn [Z.of_nat Pos.of_succ_nat]. nia. }
      intros r a. rewrite Ecat, Hv, digit_step by exact Hm. f_equal.
      rewrite length_app. cbn [length].
      replace (S (length ks + 1)) with (S (S (length ks))) by lia.
      rewrite (Nat2Z.inj_succ (S (length ks))), Z.pow_succ_r by lia.
      nia.
Qed.

Lemma z_to_string_digits z :
  z <> 0 ->
  exists k0 ks,
    String.list_ascii_of_string (z_to_string z) =
      (if z <? 0 then ["-"%char] else []) ++ map digit_char (k0 :: ks) /\
    1 <= k0 <= 9 /\ List.Forall (fun k => 0 <= k < 10) ks /\
    10 ^ Z.of_nat (length ks) <= Z.abs z /\
    digits_acc 10 (map digit_char (k0 :: ks)) 0 = Some (Z.abs z).
Proof.
  intros Hz. unfold z_to_string.
  destruct (decimal_digits_spec (S (Z.to_nat (Z.log2 (Z.abs z)))) (Z.abs z) "")
    as (k0 & ks & E & Hk0 & Hks & Hlo & Hv).
  { split; [lia|].
    rewrite Nat2Z.inj_succ, Z2Nat.id by apply Z.log2_nonneg.
    destruct (Z.log2_spec (Z.abs z)) as [_ Hlt]; [lia|].
    assert (2 ^ Z.succ (Z.log2 (Z.abs z)) <= 10 ^ Z.succ (Z.log2 (Z.abs z))).
    { apply Z.pow_le_mono_l. lia. }
    lia. }
  exists k0, ks. split; [|split; [exact Hk0|split; [exact Hks|split; [exact Hlo|]]]].
  - rewrite app_nil_r in E.
    destruct (z <? 0); cbn [String.list_ascii_of_string app]; rewrite E; reflexivity.
  - specialize (Hv [] 0). rewrite app_nil_r in Hv. rewrite Hv. cbn [digits_acc]. f_equal; lia.
Qed.

Lemma digit_not_underscore k : 0 <= k < 10 -> Ascii.eqb (digit_char k) "_" = false.
Proof.
  intros Hk.
  assert (k = 0 \/ k = 1 \/ k = 2 \/ k = 3 \/ k = 4 \/ k = 5 \/ k = 6 \/ k = 7 \/ k = 8 \/ k = 9)
    as Hc by lia.
  repeat destruct Hc as [->|Hc]; [reflexivity..|subst k; reflexivity].
Qed.

(** A string of digits passes the limit check when it has at most
    [MAX_STR_DIGITS] of them. *)
Lemma dec_digits_ok_digits ks :
  List.Forall (fun k => 0 <= k < 10) ks ->
  dec_digits_ok (map digit_char ks) = Nat.leb (length ks) MAX_STR_DIGITS.
Proof.
  intros H. unfold dec_digits_ok. f_equal. f_equal.
  induction H as [|k ks Hk _ IH]; [reflexivity|].
  cbn [map List.filter length]. rewrite digit_not_underscore by exact Hk.
  cbn [negb]. cbn [length]. rewrite IH. reflexivity.
Qed.

Lemma unsigned_base0_digits k0 ks :
  1 <= k0 <= 9 -> unsigned_base0 (map digit_char (k0 :: ks)) = decimal0 (map digit_char (k0 :: ks)).
Proof.
  intros Hk.
  assert (k0 = 1 \/ k0 = 2 \/ k0 = 3 \/ k0 = 4 \/ k0 = 5 \/ k0 = 6 \/ k0 = 7 \/ k0 = 8 \/ k0 = 9)
    as Hc by lia.
  repeat destruct Hc as [->|Hc]; [reflexivity..|subst k0; reflexivity].
Qed.

Lemma py_int0_unsigned s k0 ks :
  strip (String.list_ascii_of_string s) = map digit_char (k0 :: ks) -> 1 <= k0 <= 9 ->
  py_int0 (JStr s) = unsigned_base0 (map digit_char (k0 :: ks)).
Proof.
  intros E Hk. unfold py_int0. rewrite E.
  assert (k0 = 1 \/ k0 = 2 \/ k0 = 3 \/ k0 = 4 \/ k0 = 5 \/ k0 = 6 \/ k0 = 7 \/ k0 = 8 \/ k0 = 9)
    as Hc by lia.
  repeat destruct Hc as [->|Hc]; [reflexivity..|subst k0; reflexivity].
Qed.

Lemma py_int0_neg s r :
  strip (String.list_ascii_of_string s) = "-"%char :: r ->
  py_int0 (JStr s) = option_map Z.opp (unsigned_base0 r).
Proof. intros E. unfold py_int0. rewrite E. reflexivity. Qed.

(** [int(str(z), 0)] gives back [z] when [str(z)] has at most 4300
    digits. *)
Lemma py_int0_z_to_string z :
  Z.abs z < 10 ^ Z.of_nat MAX_STR_DIGITS -> py_int0 (JStr (z_to_string z)) = Some z.
Proof.
  intros Hb.
  destruct (Z.eq_dec z 0) as [->|Hz]; [vm_compute; reflexivity|].
  destruct (z_to_string_digits z Hz) as (k0 & ks & E & Hk0 & Hks & Hlo & Hv).
  assert (Hall : List.Forall (fun k => 0 <= k < 10) (k0 :: ks)) by (constructor; [lia|exact Hks]).
  assert (Hd : List.Forall (fun c => is_space c = false) (map digit_char (k0 :: ks))).
  { apply List.Forall_map. eapply List.Forall_impl; [|exact Hall].
    intros k Hk. apply is_space_digit; exact Hk. }
  assert (Hlen : (length (k0 :: ks) <= MAX_STR_DIGITS)%nat).
  { cbn [length]. destruct (Nat.le_gt_cases (S (length ks)) MAX_STR_DIGITS) as [|Hgt]; [assumption|].
    exfalso. assert (Z.of_nat MAX_STR_DIGITS <= Z.of_nat (length ks)) as Hle by lia.
    pose proof (Z.pow_le_mono_r 10 _ _ ltac:(lia) Hle). lia. }
  assert (Hdec : decimal0 (map digit_char (k0 :: ks)) = Some (Z.abs z)).
  { unfold decimal0. rewrite dec_digits_ok_digits by exact Hall.
    apply Nat.leb_le in Hlen. rewrite Hlen. exact Hv. }
  destruct (Z.ltb_spec z 0) as [Hneg|Hpos].
  - rewrite (py_int0_neg _ (map digit_char (k0 :: ks))).
    + rewrite unsigned_base0_digits, Hdec by exact Hk0. cbn. f_equal. lia.
    + rewrite E. apply strip_id. constructor; [reflexivity|exact Hd].
  - rewrite (py_int0_unsigned _ k0 ks); [|rewrite E; apply strip_id, Hd|exact Hk0].
    rewrite unsigned_base0_digits, Hdec by exact Hk0. f_equal. lia.
Qed.

Lemma py_bytes_ints bs : py_bytes (JList (map (fun x => JInt (byte_z x)) bs)) = Some bs.
Proof.
  cbn [py_bytes]. induction bs as [|x bs IH]; [reflexivity|].
  cbn [map mapM]. rewrite IH.
  assert (Hx : byte_of_jvalue (JInt (byte_z x)) = Some x).
  { cbn [byte_of_jvalue]. unfold byte_z. pose proof (Byte.to_nat_bounded x).
    replace ((0 <=? Z.of_nat (Byte.to_nat x)) && (Z.of_nat (Byte.to_nat x) <=? 255)) with true
      by (symmetry; apply andb_true_iff; split; apply Z.leb_le; lia).
    rewrite Nat2Z.id. apply Byte.of_to_nat. }
  rewrite Hx. reflexivity.
Qed.

Lemma decode_int_fields db z d :
  exists r, decode_can_message db (JInt z) d = Some r /\
            can_id r = JInt z /\ raw_data r = map byte_z d.
Proof.
  unfold decode_can_message. destruct db as [dbc|]; [|eexists; split; [reflexivity|split; reflexivity]].
  destruct (get_message_by_frame_id dbc z) as [m|e];
    [destruct (msg_decode m d)|]; eexists; split; [reflexivity| |reflexivity| |reflexivity|];
    split; reflexivity.
Qed.

(** Importing [{"id": str(z), "data": [...]}] with a non-empty list of
    byte values, where [str(z)] has at most 4300 digits (the default limit
    of [int] on decimal strings), always succeeds (201), whatever the
    database: the stored entry has the integer id [z] and the given bytes,
    and the table's CAN-id filter with the text [str(z)] selects it. *)
Theorem import_decimal_id_stored local_offset (can_event : hist_rec -> string)
    db now0 now z bs h b :
  bs <> [] -> Z.abs z < 10 ^ Z.of_nat MAX_STR_DIGITS ->
  let body := JObj [("id", JStr (z_to_string z));
                    ("data", JList (map (fun x => JInt (byte_z x)) bs))] in
  let '(st, h', b') := import_can_message local_offset can_event db now0 now body h b in
  st = Created /\
  exists e, h' = append_history h e /\ b' = sse_broadcast b (can_event e) /\
            can_id (rec e) = JInt z /\ raw_data (rec e) = map byte_z bs /\
            id_name_ok (Some (z_to_string z)) None e = true.
Proof.
  intros Hbs Hz. cbv zeta. unfold import_can_message.
  set (kv := [("id", JStr (z_to_string z)); ("data", JList (map (fun x => JInt (byte_z x)) bs))]).
  assert (Ei : jget "id" kv = Some (JStr (z_to_string z))) by reflexivity.
  assert (Ed : jget "data" kv = Some (JList (map (fun x => JInt (byte_z x)) bs))) by reflexivity.
  assert (Et : jget "time" kv = None) by reflexivity.
  rewrite Ei, Ed, Et.
  pose proof (py_int0_z_to_string z Hz) as Hp.
  assert (Etr : truthy (Some (JStr (z_to_string z))) &&
                truthy (Some (JList (map (fun x => JInt (byte_z x)) bs))) = true).
  { apply andb_true_iff. split.
    - cbn [truthy]. apply negb_true_iff. apply String.eqb_neq. intros E0.
      rewrite E0 in Hp. discriminate.
    - cbn [truthy]. apply negb_true_iff. apply bool_decide_eq_false.
      destruct bs; [contradiction|discriminate]. }
  rewrite Etr, Hp, py_bytes_ints.
  destruct (decode_int_fields db z bs) as (r & Er & Ec & Eraw). rewrite Er.
  split; [reflexivity|].
  eexists. split; [reflexivity|]. split; [reflexivity|].
  cbn [rec]. split; [exact Ec|]. split; [exact Eraw|].
  unfold id_name_ok. cbn [rec]. rewrite Ec. cbn [py_str py_repr truthy_str negb orb].
  rewrite String.eqb_refl, orb_true_r. reflexivity.
Qed.

Lemma import_decimal_id_stored_witness :
  [Byte.x01] <> [] /\ Z.abs 291 < 10 ^ Z.of_nat MAX_STR_DIGITS /\
  (let body := JObj [("id", JStr (z_to_string 291));
                     ("data", JList (map (fun x => JInt (byte_z x)) [Byte.x01]))] in
   let '(st, h', b') := import_can_message PecanSamples.utc PecanSamples.no_event None 0 0
                          body [] broker_init in
   st = Created /\
   exists e, h' = append_history [] e /\ b' = sse_broadcast broker_init (PecanSamples.no_event e) /\
             can_id (rec e) = JInt 291 /\ raw_data (rec e) = map byte_z [Byte.x01] /\
             id_name_ok (Some (z_to_string 291)) None e = true).
Proof.
  assert (Hb : Z.abs 291 < 10 ^ Z.of_nat MAX_STR_DIGITS) by (apply Z.ltb_lt; vm_compute; reflexivity).
  split; [discriminate|]. split; [exact Hb|].
  apply (import_decimal_id_stored PecanSamples.utc PecanSamples.no_event None 0 0 291 [Byte.x01] [] broker_init).
  - discriminate.
  - exact Hb.
Defined.


End PecanMore.
